(** * The Tidal search view of Strawberry: front/back result models,
      the debounced model swap and the search-id staleness check.

    Shallow embedding of [src/tidal/tidalsearchview.cpp].  The view is a
    single-threaded Qt widget: every slot runs to completion on the GUI
    thread, so a slot is a function from view states to view states and the
    event loop is a fold over the delivered events. *)

From Stdlib Require Import ZArith NArith List String Ascii Bool Lia.
From stdpp Require Import base gmap strings.
Import ListNotations.

Local Open Scope Z_scope.

(** ** Qt strings *)

Module Qt.

(** A [QChar] is one UTF-16 code unit, a [QString] a sequence of them. *)
Definition QChar : Type := N.
Definition QString : Type := list QChar.

(** String literals of the C++ source are Latin-1. *)
Definition qstr (s : string) : QString :=
  map N_of_ascii (list_ascii_of_string s).

(** The code points of the Unicode categories Zs, Zl and Zp above U+00A0. *)
Definition isSpace_helper (ucs : QChar) : bool :=
  ((ucs =? 0x1680) || ((0x2000 <=? ucs) && (ucs <=? 0x200a))
   || (ucs =? 0x2028) || (ucs =? 0x2029) || (ucs =? 0x202f)
   || (ucs =? 0x205f) || (ucs =? 0x3000))%N.

(** [QChar::isSpace]. *)
Definition isSpace (ucs : QChar) : bool :=
  ((ucs =? 0x20) || ((ucs <=? 0x0d) && (0x09 <=? ucs))
   || ((127 <? ucs) && ((ucs =? 0x85) || (ucs =? 0xa0) || isSpace_helper ucs)))%N.

Fixpoint skip_spaces (s : QString) : QString :=
  match s with
  | c :: rest => if isSpace c then skip_spaces rest else s
  | [] => []
  end.

(** [QString::trimmed]: whitespace removed from the start and the end. *)
Definition trimmed (s : QString) : QString :=
  rev (skip_spaces (rev (skip_spaces s))).

(** [QString::isEmpty]. *)
Definition isEmpty (s : QString) : bool :=
  match s with [] => true | _ :: _ => false end.

(** ** QTimer

    [remaining] is [None] while the timer is stopped and [Some ms] while it
    is running with [ms] milliseconds left before [timeout()]. *)
Record QTimer := mkTimer {
  singleShot : bool;
  interval : Z;
  remaining : option Z;
}.

Definition setSingleShot (b : bool) (t : QTimer) : QTimer :=
  mkTimer b (interval t) (remaining t).

Definition setInterval (msec : Z) (t : QTimer) : QTimer :=
  mkTimer (singleShot t) msec (remaining t).

(** [QTimer::start()]: starts or restarts the timer with its interval. *)
Definition start (t : QTimer) : QTimer :=
  mkTimer (singleShot t) (interval t) (Some (interval t)).

Definition stop (t : QTimer) : QTimer :=
  mkTimer (singleShot t) (interval t) None.

Definition isActive (t : QTimer) : bool :=
  match remaining t with Some _ => true | None => false end.

(** The state of the timer right after it has emitted [timeout()]. *)
Definition rearm (t : QTimer) : QTimer :=
  if singleShot t then stop t else start t.

End Qt.

Export Qt.

(** ** Collaborators of the view *)

(** [CollectionModel::GroupBy] and [TidalSettingsPage::SearchBy] are enums;
    the view stores them in [QSettings] as [int] and casts them back, so
    they are carried here by their integer value. *)
Definition GroupBy : Type := Z.
Definition SearchBy : Type := Z.

(** [CollectionModel::Grouping]. *)
Record Grouping := mkGrouping {
  first : GroupBy;
  second : GroupBy;
  third : GroupBy;
}.

Definition Grouping_eqb (g h : Grouping) : bool :=
  (first g =? first h) && (second g =? second h) && (third g =? third h).

(** A [TidalSearch::Result]; the view never looks inside one. *)
Definition Result : Type := QString.
Definition ResultList : Type := list Result.

(** The two [TidalSearchModel] objects and the two [TidalSearchSortModel]
    objects allocated by the constructor.  The members [front_model_],
    [back_model_], [current_model_] (and the [_proxy_] ones) are pointers to
    them. *)
Inductive ModelPtr := model_1 | model_2.
Inductive ProxyPtr := proxy_1 | proxy_2.

Module TidalSearch.

(** Requests the view has sent to the search engine, oldest first. *)
Inductive Request :=
| CancelSearchReq (id : Z)
| SearchAsyncReq (id : Z) (query : QString) (searchby : SearchBy).

(** Modelled from the spec: the class [TidalSearch] (tidalsearch.cpp) is not
    part of the sources.  Section 6 gives its contract,
    [search_async(query, mode) -> request_id] and [cancel(request_id)], and
    section 3 makes the request id a monotonically increasing integer for
    which wrap-around is acceptable. *)
Record t := mk {
  next_id_ : Z;
  requests : list Request;
}.

(** Two's complement wrap-around of a C++ [int]. *)
Definition wrap_int (z : Z) : Z := (z + 2^31) mod 2^32 - 2^31.

Definition SearchAsync (query : QString) (searchby : SearchBy) (e : t) : Z * t :=
  (next_id_ e,
   mk (wrap_int (next_id_ e + 1))
      (requests e ++ [SearchAsyncReq (next_id_ e) query searchby])).

Definition CancelSearch (id : Z) (e : t) : t :=
  mk (next_id_ e) (requests e ++ [CancelSearchReq id]).

Definition is_search (r : Request) : bool :=
  match r with SearchAsyncReq _ _ _ => true | CancelSearchReq _ => false end.

(** The searches issued so far. *)
Definition searches (e : t) : list Request := List.filter is_search (requests e).

End TidalSearch.

Module TidalSearchModel.

(** Modelled from the spec: the class [TidalSearchModel]
    (tidalsearchmodel.cpp) is not part of the sources.  Section 3 describes
    a result container as an ordered sequence of result records with a
    grouping applied to it; it is only ever cleared and refilled, and
    regrouping does not lose the results it holds. *)
Record t := mk {
  results : ResultList;
  group_by_ : Grouping;
  use_pretty_covers_ : bool;
  proxy_ : option ProxyPtr;
}.

Definition Clear (m : t) : t :=
  mk [] (group_by_ m) (use_pretty_covers_ m) (proxy_ m).

Definition AddResults (rs : ResultList) (m : t) : t :=
  mk (results m ++ rs) (group_by_ m) (use_pretty_covers_ m) (proxy_ m).

(** The second argument is passed as [true] for the front model and [false]
    for the back model; the spec gives it no effect on the stored results. *)
Definition SetGroupBy (g : Grouping) (now : bool) (m : t) : t :=
  mk (results m) g (use_pretty_covers_ m) (proxy_ m).

Definition set_use_pretty_covers (pretty : bool) (m : t) : t :=
  mk (results m) (group_by_ m) pretty (proxy_ m).

Definition set_proxy (p : ProxyPtr) (m : t) : t :=
  mk (results m) (group_by_ m) (use_pretty_covers_ m) (Some p).

End TidalSearchModel.

Module TidalSearchSortModel.

(** A [QSortFilterProxyModel]: a sorted presentation of its source model. *)
Record t := mk {
  sourceModel : option ModelPtr;
  dynamicSortFilter : bool;
  sortColumn : option Z;
}.

Definition setSourceModel (m : ModelPtr) (p : t) : t :=
  mk (Some m) (dynamicSortFilter p) (sortColumn p).

Definition setDynamicSortFilter (b : bool) (p : t) : t :=
  mk (sourceModel p) b (sortColumn p).

Definition sort (column : Z) (p : t) : t :=
  mk (sourceModel p) (dynamicSortFilter p) (Some column).

End TidalSearchSortModel.

(** ** The widgets of [Ui_TidalSearchView] the slots read or write *)

Inductive StackPage := help_page | results_page.

Record Ui_TidalSearchView := mkUi {
  search : QString;                    (* ui_->search->text() *)
  label_helptext : QString;            (* ui_->label_helptext->text() *)
  results_stack : StackPage;           (* ui_->results_stack->currentWidget() *)
  results : option ProxyPtr;           (* ui_->results->model() *)
  radiobutton_searchbysongs : bool;
  radiobutton_searchbyalbums : bool;
}.

(** [group_by_actions_]: the "group_by" property of every action of the
    group ([None] for the action that opens the dialog) and the index of
    the checked action; a [QActionGroup] is exclusive. *)
Record QActionGroup := mkActionGroup {
  actions : list (option Grouping);
  checkedAction : option nat;
}.

(** [QModelIndex] of an item of one of the two models. *)
Record QModelIndex := mkIndex {
  index_model : ModelPtr;
  index_row : Z;
}.

Record ModelHeap := mkModels {
  at_model_1 : TidalSearchModel.t;
  at_model_2 : TidalSearchModel.t;
}.

Record ProxyHeap := mkProxies {
  at_proxy_1 : TidalSearchSortModel.t;
  at_proxy_2 : TidalSearchSortModel.t;
}.

Definition model_at (h : ModelHeap) (p : ModelPtr) : TidalSearchModel.t :=
  match p with model_1 => at_model_1 h | model_2 => at_model_2 h end.

Definition model_call (p : ModelPtr) (f : TidalSearchModel.t -> TidalSearchModel.t)
    (h : ModelHeap) : ModelHeap :=
  match p with
  | model_1 => mkModels (f (at_model_1 h)) (at_model_2 h)
  | model_2 => mkModels (at_model_1 h) (f (at_model_2 h))
  end.

Definition proxy_at (h : ProxyHeap) (p : ProxyPtr) : TidalSearchSortModel.t :=
  match p with proxy_1 => at_proxy_1 h | proxy_2 => at_proxy_2 h end.

Definition proxy_call (p : ProxyPtr) (f : TidalSearchSortModel.t -> TidalSearchSortModel.t)
    (h : ProxyHeap) : ProxyHeap :=
  match p with
  | proxy_1 => mkProxies (f (at_proxy_1 h)) (at_proxy_2 h)
  | proxy_2 => mkProxies (at_proxy_1 h) (f (at_proxy_2 h))
  end.

(** ** The view *)

(** The members of [TidalSearchView] together with the objects they point
    to and the [QSettings] group the view reads and writes
    ([TidalSettingsPage::kSettingsGroup]). *)
Record TidalSearchView := mkView {
  engine_ : TidalSearch.t;
  qsettings : gmap string Z;
  ui_ : Ui_TidalSearchView;
  models : ModelHeap;
  proxies : ProxyHeap;
  last_search_id_ : Z;
  front_model_ : ModelPtr;
  back_model_ : ModelPtr;
  current_model_ : ModelPtr;
  front_proxy_ : ProxyPtr;
  back_proxy_ : ProxyPtr;
  current_proxy_ : ProxyPtr;
  swap_models_timer_ : QTimer;
  art_requests_ : gmap Z QModelIndex;
  error_ : bool;
  searchby_ : SearchBy;
  group_by_actions_ : QActionGroup;
}.

(** Field updates. *)
Definition with_engine (e : TidalSearch.t) (s : TidalSearchView) :=
  mkView e (qsettings s) (ui_ s) (models s) (proxies s) (last_search_id_ s)
    (front_model_ s) (back_model_ s) (current_model_ s)
    (front_proxy_ s) (back_proxy_ s) (current_proxy_ s)
    (swap_models_timer_ s) (art_requests_ s) (error_ s) (searchby_ s)
    (group_by_actions_ s).

Definition with_qsettings (q : gmap string Z) (s : TidalSearchView) :=
  mkView (engine_ s) q (ui_ s) (models s) (proxies s) (last_search_id_ s)
    (front_model_ s) (back_model_ s) (current_model_ s)
    (front_proxy_ s) (back_proxy_ s) (current_proxy_ s)
    (swap_models_timer_ s) (art_requests_ s) (error_ s) (searchby_ s)
    (group_by_actions_ s).

Definition with_ui (u : Ui_TidalSearchView) (s : TidalSearchView) :=
  mkView (engine_ s) (qsettings s) u (models s) (proxies s) (last_search_id_ s)
    (front_model_ s) (back_model_ s) (current_model_ s)
    (front_proxy_ s) (back_proxy_ s) (current_proxy_ s)
    (swap_models_timer_ s) (art_requests_ s) (error_ s) (searchby_ s)
    (group_by_actions_ s).

Definition with_models (h : ModelHeap) (s : TidalSearchView) :=
  mkView (engine_ s) (qsettings s) (ui_ s) h (proxies s) (last_search_id_ s)
    (front_model_ s) (back_model_ s) (current_model_ s)
    (front_proxy_ s) (back_proxy_ s) (current_proxy_ s)
    (swap_models_timer_ s) (art_requests_ s) (error_ s) (searchby_ s)
    (group_by_actions_ s).

Definition with_proxies (h : ProxyHeap) (s : TidalSearchView) :=
  mkView (engine_ s) (qsettings s) (ui_ s) (models s) h (last_search_id_ s)
    (front_model_ s) (back_model_ s) (current_model_ s)
    (front_proxy_ s) (back_proxy_ s) (current_proxy_ s)
    (swap_models_timer_ s) (art_requests_ s) (error_ s) (searchby_ s)
    (group_by_actions_ s).

Definition with_last_search_id (id : Z) (s : TidalSearchView) :=
  mkView (engine_ s) (qsettings s) (ui_ s) (models s) (proxies s) id
    (front_model_ s) (back_model_ s) (current_model_ s)
    (front_proxy_ s) (back_proxy_ s) (current_proxy_ s)
    (swap_models_timer_ s) (art_requests_ s) (error_ s) (searchby_ s)
    (group_by_actions_ s).

Definition with_front_back_model (f b : ModelPtr) (s : TidalSearchView) :=
  mkView (engine_ s) (qsettings s) (ui_ s) (models s) (proxies s) (last_search_id_ s)
    f b (current_model_ s)
    (front_proxy_ s) (back_proxy_ s) (current_proxy_ s)
    (swap_models_timer_ s) (art_requests_ s) (error_ s) (searchby_ s)
    (group_by_actions_ s).

Definition with_front_back_proxy (f b : ProxyPtr) (s : TidalSearchView) :=
  mkView (engine_ s) (qsettings s) (ui_ s) (models s) (proxies s) (last_search_id_ s)
    (front_model_ s) (back_model_ s) (current_model_ s)
    f b (current_proxy_ s)
    (swap_models_timer_ s) (art_requests_ s) (error_ s) (searchby_ s)
    (group_by_actions_ s).

Definition with_current_model (p : ModelPtr) (s : TidalSearchView) :=
  mkView (engine_ s) (qsettings s) (ui_ s) (models s) (proxies s) (last_search_id_ s)
    (front_model_ s) (back_model_ s) p
    (front_proxy_ s) (back_proxy_ s) (current_proxy_ s)
    (swap_models_timer_ s) (art_requests_ s) (error_ s) (searchby_ s)
    (group_by_actions_ s).

Definition with_current_proxy (p : ProxyPtr) (s : TidalSearchView) :=
  mkView (engine_ s) (qsettings s) (ui_ s) (models s) (proxies s) (last_search_id_ s)
    (front_model_ s) (back_model_ s) (current_model_ s)
    (front_proxy_ s) (back_proxy_ s) p
    (swap_models_timer_ s) (art_requests_ s) (error_ s) (searchby_ s)
    (group_by_actions_ s).

Definition with_timer (t : QTimer) (s : TidalSearchView) :=
  mkView (engine_ s) (qsettings s) (ui_ s) (models s) (proxies s) (last_search_id_ s)
    (front_model_ s) (back_model_ s) (current_model_ s)
    (front_proxy_ s) (back_proxy_ s) (current_proxy_ s)
    t (art_requests_ s) (error_ s) (searchby_ s)
    (group_by_actions_ s).

Definition with_art_requests (m : gmap Z QModelIndex) (s : TidalSearchView) :=
  mkView (engine_ s) (qsettings s) (ui_ s) (models s) (proxies s) (last_search_id_ s)
    (front_model_ s) (back_model_ s) (current_model_ s)
    (front_proxy_ s) (back_proxy_ s) (current_proxy_ s)
    (swap_models_timer_ s) m (error_ s) (searchby_ s)
    (group_by_actions_ s).

Definition with_error (b : bool) (s : TidalSearchView) :=
  mkView (engine_ s) (qsettings s) (ui_ s) (models s) (proxies s) (last_search_id_ s)
    (front_model_ s) (back_model_ s) (current_model_ s)
    (front_proxy_ s) (back_proxy_ s) (current_proxy_ s)
    (swap_models_timer_ s) (art_requests_ s) b (searchby_ s)
    (group_by_actions_ s).

Definition with_searchby (sb : SearchBy) (s : TidalSearchView) :=
  mkView (engine_ s) (qsettings s) (ui_ s) (models s) (proxies s) (last_search_id_ s)
    (front_model_ s) (back_model_ s) (current_model_ s)
    (front_proxy_ s) (back_proxy_ s) (current_proxy_ s)
    (swap_models_timer_ s) (art_requests_ s) (error_ s) sb
    (group_by_actions_ s).

Definition with_group_by_actions (g : QActionGroup) (s : TidalSearchView) :=
  mkView (engine_ s) (qsettings s) (ui_ s) (models s) (proxies s) (last_search_id_ s)
    (front_model_ s) (back_model_ s) (current_model_ s)
    (front_proxy_ s) (back_proxy_ s) (current_proxy_ s)
    (swap_models_timer_ s) (art_requests_ s) (error_ s) (searchby_ s)
    g.

(** Widget setters. *)
Definition search_set (text : QString) (u : Ui_TidalSearchView) :=
  mkUi text (label_helptext u) (results_stack u) (results u)
    (radiobutton_searchbysongs u) (radiobutton_searchbyalbums u).

Definition label_helptext_setText (text : QString) (u : Ui_TidalSearchView) :=
  mkUi (search u) text (results_stack u) (results u)
    (radiobutton_searchbysongs u) (radiobutton_searchbyalbums u).

Definition results_stack_setCurrentWidget (w : StackPage) (u : Ui_TidalSearchView) :=
  mkUi (search u) (label_helptext u) w (results u)
    (radiobutton_searchbysongs u) (radiobutton_searchbyalbums u).

Definition results_setModel (p : ProxyPtr) (u : Ui_TidalSearchView) :=
  mkUi (search u) (label_helptext u) (results_stack u) (Some p)
    (radiobutton_searchbysongs u) (radiobutton_searchbyalbums u).

(** The two radio buttons are auto-exclusive siblings. *)
Definition radiobutton_searchbysongs_setChecked (u : Ui_TidalSearchView) :=
  mkUi (search u) (label_helptext u) (results_stack u) (results u) true false.

Definition radiobutton_searchbyalbums_setChecked (u : Ui_TidalSearchView) :=
  mkUi (search u) (label_helptext u) (results_stack u) (results u) false true.

(** [QSettings::value(key, default)] for the integer-valued keys, and for
    the boolean key "pretty_covers". *)
Definition value_int (q : gmap string Z) (key : string) (default : Z) : Z :=
  match q !! key with Some v => v | None => default end.

Definition value_bool (q : gmap string Z) (key : string) (default : bool) : bool :=
  match q !! key with Some v => negb (v =? 0) | None => default end.

Definition kSwapModelsTimeoutMsec : Z := 250.

(** The enumerators the view names.  Their values are declared in
    collectionmodel.h and tidalsettingspage.h, which are not part of the
    sources, so they are parameters of the development. *)
Class EnumValues := {
  GroupBy_None : GroupBy;
  GroupBy_Artist : GroupBy;
  GroupBy_Album : GroupBy;
  SearchBy_Songs : SearchBy;
  SearchBy_Albums : SearchBy;
}.

(** *** Slots *)

(** [TidalSearchView::TextEdited]. *)
Definition TextEdited (text : QString) (s : TidalSearchView) : TidalSearchView :=
  let trimmed_text := trimmed text in
  let s := with_error false s in
  (* Add results to the back model, switch models after some delay. *)
  let s := with_models (model_call (back_model_ s) TidalSearchModel.Clear (models s)) s in
  let s := with_current_model (back_model_ s) s in
  let s := with_current_proxy (back_proxy_ s) s in
  let s := with_timer (start (swap_models_timer_ s)) s in
  (* Cancel the last search (if any) and start the new one. *)
  let s := with_engine (TidalSearch.CancelSearch (last_search_id_ s) (engine_ s)) s in
  if isEmpty trimmed_text then
    let s := with_last_search_id (-1) s in
    with_ui (label_helptext_setText
               (qstr "Enter search terms above to find music") (ui_ s)) s
  else
    let (id, e) := TidalSearch.SearchAsync trimmed_text (searchby_ s) (engine_ s) in
    with_last_search_id id (with_engine e s).

(** [TidalSearchView::AddResults]. *)
Definition AddResults (id : Z) (rs : ResultList) (s : TidalSearchView) : TidalSearchView :=
  if negb (id =? last_search_id_ s) then s
  else match rs with
       | [] => s
       | _ :: _ =>
           with_models
             (model_call (current_model_ s) (TidalSearchModel.AddResults rs) (models s)) s
       end.

(** [TidalSearchView::SearchError]. *)
Definition SearchError (id : Z) (error : QString) (s : TidalSearchView) : TidalSearchView :=
  let s := with_error true s in
  let s := with_ui (label_helptext_setText error (ui_ s)) s in
  with_ui (results_stack_setCurrentWidget help_page (ui_ s)) s.

(** [TidalSearchView::SwapModels]. *)
Definition SwapModels (s : TidalSearchView) : TidalSearchView :=
  let s := with_art_requests ∅ s in
  let s := with_front_back_model (back_model_ s) (front_model_ s) s in
  let s := with_front_back_proxy (back_proxy_ s) (front_proxy_ s) s in
  let s := with_ui (results_setModel (front_proxy_ s) (ui_ s)) s in
  if isEmpty (trimmed (search (ui_ s))) || error_ s then
    with_ui (results_stack_setCurrentWidget help_page (ui_ s)) s
  else
    with_ui (results_stack_setCurrentWidget results_page (ui_ s)) s.

(** The search field emits [textChanged(QString)] with its new contents;
    the constructor connects the signal to [TextEdited]. *)
Definition search_textChanged (text : QString) (s : TidalSearchView) : TidalSearchView :=
  TextEdited text (with_ui (search_set text (ui_ s)) s).

(** [ui_->search->setText(query)]: the signal is emitted only when the text
    of the field changes. *)
Definition search_setText (text : QString) (s : TidalSearchView) : TidalSearchView :=
  if bool_decide (text = search (ui_ s)) then s else search_textChanged text s.

(** [TidalSearchView::StartSearch]. *)
Definition StartSearch (query : QString) (s : TidalSearchView) : TidalSearchView :=
  let s := search_setText query s in
  let s := TextEdited query s in
  (* Swap models immediately *)
  let s := with_timer (stop (swap_models_timer_ s)) s in
  SwapModels s.

(** The loop of [SetGroupBy] over the actions: the index of the first
    action whose "group_by" property is set and equal to [g]. *)
Fixpoint find_action (g : Grouping) (acts : list (option Grouping)) (i : nat) : option nat :=
  match acts with
  | [] => None
  | None :: rest => find_action g rest (S i)
  | Some h :: rest => if Grouping_eqb g h then Some i else find_action g rest (S i)
  end.

(** Make sure the correct action is checked; otherwise check the advanced
    action, which is the last one.  [CreateGroupByActions] never returns an
    empty group. *)
Definition check_group_by_action (g : Grouping) (grp : QActionGroup) : QActionGroup :=
  match find_action g (actions grp) 0 with
  | Some i => mkActionGroup (actions grp) (Some i)
  | None => mkActionGroup (actions grp) (Some (Nat.pred (length (actions grp))))
  end.

(** [TidalSearchView::SetGroupBy]. *)
Definition SetGroupBy (g : Grouping) (s : TidalSearchView) : TidalSearchView :=
  let s := with_art_requests ∅ s in
  (* Update the models *)
  let s := with_models
             (model_call (front_model_ s) (TidalSearchModel.SetGroupBy g true) (models s)) s in
  let s := with_models
             (model_call (back_model_ s) (TidalSearchModel.SetGroupBy g false) (models s)) s in
  (* Save the setting *)
  let s := with_qsettings
             (<["group_by3" := third g]>
                (<["group_by2" := second g]>
                   (<["group_by1" := first g]> (qsettings s)))) s in
  with_group_by_actions (check_group_by_action g (group_by_actions_ s)) s.

(** [TidalSearchView::ReloadSettings]. *)
Definition ReloadSettings `{EnumValues} (s : TidalSearchView) : TidalSearchView :=
  let pretty := value_bool (qsettings s) "pretty_covers" true in
  let s := with_models
             (model_call (front_model_ s)
                (TidalSearchModel.set_use_pretty_covers pretty) (models s)) s in
  let s := with_models
             (model_call (back_model_ s)
                (TidalSearchModel.set_use_pretty_covers pretty) (models s)) s in
  let s := with_searchby (value_int (qsettings s) "searchby" SearchBy_Songs) s in
  let s := if searchby_ s =? SearchBy_Songs
           then with_ui (radiobutton_searchbysongs_setChecked (ui_ s)) s
           else if searchby_ s =? SearchBy_Albums
           then with_ui (radiobutton_searchbyalbums_setChecked (ui_ s)) s
           else s in
  SetGroupBy
    (mkGrouping (value_int (qsettings s) "group_by1" GroupBy_Artist)
                (value_int (qsettings s) "group_by2" GroupBy_Album)
                (value_int (qsettings s) "group_by3" GroupBy_None)) s.

(** [TidalSearchView::SetSearchBy]. *)
Definition SetSearchBy (searchby : SearchBy) (s : TidalSearchView) : TidalSearchView :=
  let s := with_searchby searchby s in
  let s := with_qsettings (<["searchby" := searchby]> (qsettings s)) s in
  TextEdited (search (ui_ s)) s.

Definition SearchBySongsClicked `{EnumValues} (checked : bool) (s : TidalSearchView) :=
  SetSearchBy SearchBy_Songs s.

Definition SearchByAlbumsClicked `{EnumValues} (checked : bool) (s : TidalSearchView) :=
  SetSearchBy SearchBy_Albums s.

(** *** Construction *)

(** What the constructor takes from its surroundings: the engine
    ([app_->tidal_search()]), the stored settings, the actions made by
    [CollectionFilterWidget::CreateGroupByActions] and the help text of the
    form. *)
Record Environment := mkEnv {
  tidal_search : TidalSearch.t;
  stored_settings : gmap string Z;
  CreateGroupByActions : list (option Grouping);
  form_helptext : QString;
}.

(** A freshly allocated model and proxy; [ReloadSettings] sets the grouping
    and the cover flag of both models before the constructor returns. *)
Definition new_TidalSearchModel `{EnumValues} : TidalSearchModel.t :=
  TidalSearchModel.mk [] (mkGrouping GroupBy_None GroupBy_None GroupBy_None) true None.

Definition new_TidalSearchSortModel : TidalSearchSortModel.t :=
  TidalSearchSortModel.mk None false None.

(** [Ui_TidalSearchView::setupUi]. *)
Definition setupUi (helptext : QString) : Ui_TidalSearchView :=
  mkUi [] helptext help_page None false false.

(** [TidalSearchView::TidalSearchView]. *)
Definition TidalSearchView_new `{EnumValues} (env : Environment) : TidalSearchView :=
  (* member initialisers *)
  let s := mkView (tidal_search env) (stored_settings env)
             (setupUi (form_helptext env))
             (mkModels new_TidalSearchModel new_TidalSearchModel)
             (mkProxies new_TidalSearchSortModel new_TidalSearchSortModel)
             0
             model_1 model_2 model_1
             proxy_1 proxy_2 proxy_1
             (mkTimer false 0 None) ∅ false SearchBy_Songs
             (mkActionGroup [] None) in
  let s := with_models
             (model_call (front_model_ s)
                (TidalSearchModel.set_proxy (front_proxy_ s)) (models s)) s in
  let s := with_models
             (model_call (back_model_ s)
                (TidalSearchModel.set_proxy (back_proxy_ s)) (models s)) s in
  (* Show the help page initially *)
  let s := with_ui (results_stack_setCurrentWidget help_page (ui_ s)) s in
  (* Set up the sorting proxy model *)
  let set_up m p :=
    TidalSearchSortModel.sort 0
      (TidalSearchSortModel.setDynamicSortFilter true
         (TidalSearchSortModel.setSourceModel m p)) in
  let s := with_proxies
             (proxy_call (front_proxy_ s) (set_up (front_model_ s)) (proxies s)) s in
  let s := with_proxies
             (proxy_call (back_proxy_ s) (set_up (back_model_ s)) (proxies s)) s in
  let s := with_timer (setSingleShot true (swap_models_timer_ s)) s in
  let s := with_timer (setInterval kSwapModelsTimeoutMsec (swap_models_timer_ s)) s in
  (* Add actions to the settings menu *)
  let s := with_group_by_actions (mkActionGroup (CreateGroupByActions env) None) s in
  ReloadSettings s.

(** *** The event loop *)

(** [swap_models_timer_] after [msec] milliseconds without another event:
    when the remaining time runs out, [timeout()] is emitted and the
    connected slot [SwapModels] runs. *)
Definition elapse (msec : Z) (s : TidalSearchView) : TidalSearchView :=
  match remaining (swap_models_timer_ s) with
  | None => s
  | Some ms =>
      if msec <=? 0 then s
      else if msec <? ms then
        with_timer (mkTimer (singleShot (swap_models_timer_ s))
                            (interval (swap_models_timer_ s))
                            (Some (ms - msec))) s
      else SwapModels (with_timer (rearm (swap_models_timer_ s)) s)
  end.

(** What the event loop delivers to the view. *)
Inductive Event :=
| SearchTextChanged (text : QString)        (* the user edits the search field *)
| DoStartSearch (query : QString)           (* a caller of [StartSearch] *)
| TimePasses (msec : Z)
| EngineAddResults (id : Z) (rs : ResultList)
| EngineSearchError (id : Z) (error : QString)
| GroupByChosen (g : Grouping)
| SongsClicked
| AlbumsClicked
| SettingsChanged (stored : gmap string Z).

Definition deliver `{EnumValues} (s : TidalSearchView) (ev : Event) : TidalSearchView :=
  match ev with
  | SearchTextChanged text => search_textChanged text s
  | DoStartSearch query => StartSearch query s
  | TimePasses msec => elapse msec s
  | EngineAddResults id rs => AddResults id rs s
  | EngineSearchError id error => SearchError id error s
  | GroupByChosen g => SetGroupBy g s
  | SongsClicked => SearchBySongsClicked true s
  | AlbumsClicked => SearchByAlbumsClicked true s
  | SettingsChanged stored => ReloadSettings (with_qsettings stored s)
  end.

Definition run `{EnumValues} (evs : list Event) (s : TidalSearchView) : TidalSearchView :=
  fold_left deliver evs s.

(** *** Observations *)

(** What the results view shows: the results of the source model of the
    proxy installed in [ui_->results]. *)
Definition visible_results (s : TidalSearchView) : option ResultList :=
  p ← results (ui_ s);
  m ← TidalSearchSortModel.sourceModel (proxy_at (proxies s) p);
  Some (TidalSearchModel.results (model_at (models s) m)).

(** The spec's [submit(text) -> id]: the search field delivers [text] to
    [TextEdited]; the id is the one the view then waits for. *)
Definition submit (text : QString) (s : TidalSearchView) : Z * TidalSearchView :=
  let s' := search_textChanged text s in (last_search_id_ s', s').

Definition submit_all (texts : list QString) (s : TidalSearchView) : TidalSearchView :=
  fold_left (fun s text => snd (submit text s)) texts s.

(** Each proxy presents the model of the same role. *)
Definition paired (s : TidalSearchView) : Prop :=
  TidalSearchSortModel.sourceModel (proxy_at (proxies s) (front_proxy_ s))
    = Some (front_model_ s)
  /\ TidalSearchSortModel.sourceModel (proxy_at (proxies s) (back_proxy_ s))
    = Some (back_model_ s)
  /\ front_model_ s <> back_model_ s.

(** The swap timer as the constructor configures it. *)
Definition timer_configured (s : TidalSearchView) : Prop :=
  singleShot (swap_models_timer_ s) = true
  /\ interval (swap_models_timer_ s) = kSwapModelsTimeoutMsec.

(** Once a model has been installed in [ui_->results] it is the proxy of
    the front model. *)
Definition shows_front (s : TidalSearchView) : Prop :=
  results (ui_ s) = None \/ results (ui_ s) = Some (front_proxy_ s).

(** What the constructor establishes and every slot keeps. *)
Definition view_inv (s : TidalSearchView) : Prop :=
  paired s /\ timer_configured s /\ shows_front s.

(** Texts that are empty once trimmed. *)
Definition blank (text : QString) : bool := isEmpty (trimmed text).

(** Events that do not submit a query. *)
Definition quiet (ev : Event) : bool :=
  match ev with
  | TimePasses _ | EngineAddResults _ _ | EngineSearchError _ _
  | GroupByChosen _ | SettingsChanged _ => true
  | SearchTextChanged _ | DoStartSearch _ | SongsClicked | AlbumsClicked => false
  end.

(** Example surroundings: enumerator values, an engine that has issued no
    id yet, empty settings and a group of three actions. *)
Definition example_enums : EnumValues :=
  {| GroupBy_None := 0; GroupBy_Artist := 1; GroupBy_Album := 2;
     SearchBy_Songs := 1; SearchBy_Albums := 2 |}.

Definition example_env : Environment :=
  mkEnv (TidalSearch.mk 1 []) ∅
        [Some (mkGrouping 1 0 0); Some (mkGrouping 1 2 0); None]
        (qstr "Enter search terms above to find music").

Definition example_view : TidalSearchView :=
  @TidalSearchView_new example_enums example_env.

(** ** Typing, and the searches the engine still works on *)

(** A burst of keystrokes: each one changes the search field and is
    followed by [gap] milliseconds without input. *)
Definition keystrokes (burst : list (QString * Z)) (s : TidalSearchView) : TidalSearchView :=
  fold_left (fun s key => elapse (snd key) (search_textChanged (fst key) s)) burst s.

(** The ids of the searches in a request log that no later request of the
    log cancels. *)
Definition account (open : list Z) (r : TidalSearch.Request) : list Z :=
  match r with
  | TidalSearch.CancelSearchReq id => List.filter (fun i => negb (i =? id)) open
  | TidalSearch.SearchAsyncReq id _ _ => open ++ [id]
  end.

Definition outstanding (reqs : list TidalSearch.Request) : list Z :=
  fold_left account reqs [].

(** The grouping [ReloadSettings] reads from the settings. *)
Definition stored_grouping `{EnumValues} (q : gmap string Z) : Grouping :=
  mkGrouping (value_int q "group_by1" GroupBy_Artist)
             (value_int q "group_by2" GroupBy_Album)
             (value_int q "group_by3" GroupBy_None).

(** The three keys [SetGroupBy] writes. *)
Definition save_grouping (g : Grouping) (q : gmap string Z) : gmap string Z :=
  <["group_by3" := third g]> (<["group_by2" := second g]> (<["group_by1" := first g]> q)).

(** ** Items, artwork and the playlist slots *)

(** [QPixmap]: the null pixmap or one with contents. *)
Inductive QPixmap := NullPixmap | Pixmap (contents : list Z).

Definition isNull (p : QPixmap) : bool :=
  match p with NullPixmap => true | Pixmap _ => false end.

(** The data of a [QStandardItem] under the roles the view reads.  For
    [Role_LazyLoadingArt] the view only asks whether the data is valid. *)
Record ItemData := mkItemData {
  Role_IsDivider : bool;
  Role_ContainerType : Z;
  Role_LazyLoadingArt : bool;
  Role_Result : Result;
  DisplayRole : QString;
}.

#[warnings="-register-all"] Inductive QStandardItem := Item (data : ItemData) (children : list QStandardItem).

Definition item_data (item : QStandardItem) : ItemData :=
  match item with Item d _ => d end.

Definition rowCount (item : QStandardItem) : nat :=
  match item with Item _ cs => length cs end.

(** [while (item->rowCount()) item = item->child(0);] *)
Fixpoint first_track (item : QStandardItem) : QStandardItem :=
  match item with
  | Item _ [] => item
  | Item _ (child :: _) => first_track child
  end.

(** An index handed to the view by the results widget: whether it is valid,
    the proxy it belongs to ([model()]), the row of the source model it maps
    to and the item found there. *)
Record ProxyIndex := mkProxyIndex {
  isValid : bool;
  index_proxy : ProxyPtr;
  source_row : Z;
  index_item : QStandardItem;
}.

Definition ProxyPtr_eqb (p q : ProxyPtr) : bool :=
  match p, q with
  | proxy_1, proxy_1 | proxy_2, proxy_2 => true
  | _, _ => false
  end.

(** [proxy->mapToSource(index)]; a proxy without source model yields the
    invalid index, for which [itemFromIndex] returns a null pointer. *)
Definition mapToSource (h : ProxyHeap) (p : ProxyPtr) (index : ProxyIndex)
    : option QModelIndex :=
  m ← TidalSearchSortModel.sourceModel (proxy_at h p);
  Some (mkIndex m (source_row index)).

(** The groupings under which an item stands for an album, next to
    [GroupBy_Album]; collectionmodel.h is not part of the sources. *)
Class AlbumEnumValues := {
  GroupBy_AlbumArtist : GroupBy;
  GroupBy_YearAlbum : GroupBy;
  GroupBy_OriginalYearAlbum : GroupBy;
}.

(** [MimeData] (core/mimedata.h): the tracks and the flags the view sets. *)
Record MimeData := mkMimeData {
  tracks : ResultList;
  clear_first_ : bool;
  enqueue_now_ : bool;
  open_in_new_playlist_ : bool;
}.

(** What a slot does to objects outside the view state. *)
Inductive Effect :=
| MarkLazyLoadingArt (model : ModelPtr) (index : QModelIndex)
| LoadArtAsync (result : Result)
| SetDecoration (model : ModelPtr) (index : QModelIndex) (pixmap : QPixmap)
| SetCurrentIndex (index : ProxyIndex)
| AddToPlaylist (data : option MimeData)
| UpAndFocus
| DownAndFocus
| Accept.

(** [TidalSearchView::LazyLoadArt].  [use_pretty_covers] is the answer of
    [app_->collection_model()] and [art_id] the id [LoadArtAsync] returns;
    the result is [None] when the slot dereferences a null pointer. *)
Definition LazyLoadArt `{EnumValues} `{AlbumEnumValues}
    (use_pretty_covers : bool) (art_id : Z) (proxy_index : ProxyIndex)
    (s : TidalSearchView) : option (TidalSearchView * list Effect) :=
  if negb (isValid proxy_index)
     || negb (ProxyPtr_eqb (index_proxy proxy_index) (front_proxy_ s))
  then Some (s, [])
  (* Already loading art for this item? *)
  else if Role_LazyLoadingArt (item_data (index_item proxy_index)) then Some (s, [])
  (* Should we even load art at all? *)
  else if negb use_pretty_covers then Some (s, [])
  else
    (* Is this an album? *)
    let container_type := Role_ContainerType (item_data (index_item proxy_index)) in
    if negb (container_type =? GroupBy_Album)
       && negb (container_type =? GroupBy_AlbumArtist)
       && negb (container_type =? GroupBy_YearAlbum)
       && negb (container_type =? GroupBy_OriginalYearAlbum)
    then Some (s, [])
    else
      match mapToSource (proxies s) (front_proxy_ s) proxy_index with
      | None => None
      | Some source_index =>
          let item := index_item proxy_index in
          (* Walk down the item's children until we find a track *)
          let result := Role_Result (item_data (first_track item)) in
          Some (with_art_requests (<[art_id := source_index]> (art_requests_ s)) s,
                [MarkLazyLoadingArt (front_model_ s) source_index;
                 LoadArtAsync result])
      end.

(** [TidalSearchView::ArtLoaded]. *)
Definition ArtLoaded (id : Z) (pixmap : QPixmap) (s : TidalSearchView)
    : TidalSearchView * list Effect :=
  match art_requests_ s !! id with
  | None => (s, [])
  | Some index =>
      let s := with_art_requests (delete id (art_requests_ s)) s in
      if negb (isNull pixmap)
      then (s, [SetDecoration (front_model_ s) index pixmap])
      else (s, [])
  end.

(** The event loop with the artwork events: the item delegate asks for the
    art of an item it paints, and the engine delivers loaded art. *)
Inductive ViewEvent :=
| ViewEv (ev : Event)
| PaintItem (use_pretty_covers : bool) (art_id : Z) (index : ProxyIndex)
| EngineArtLoaded (id : Z) (pixmap : QPixmap).

Definition deliver_view `{EnumValues} `{AlbumEnumValues}
    (s : TidalSearchView) (ev : ViewEvent) : option (TidalSearchView * list Effect) :=
  match ev with
  | ViewEv ev => Some (deliver s ev, [])
  | PaintItem pretty art_id index => LazyLoadArt pretty art_id index s
  | EngineArtLoaded id pixmap => Some (ArtLoaded id pixmap s)
  end.

Fixpoint run_view `{EnumValues} `{AlbumEnumValues}
    (evs : list ViewEvent) (s : TidalSearchView) : option (TidalSearchView * list Effect) :=
  match evs with
  | [] => Some (s, [])
  | ev :: evs =>
      match deliver_view s ev with
      | None => None
      | Some (s1, done) =>
          match run_view evs s1 with
          | None => None
          | Some (s2, more) => Some (s2, done ++ more)
          end
      end
  end.

(** Every pending artwork request refers to an item of the front model. *)
Definition art_requests_in_front (s : TidalSearchView) : Prop :=
  forall id index, art_requests_ s !! id = Some index -> index_model index = front_model_ s.

(** An effect on an item names the model the item's index belongs to. *)
Definition well_aimed (e : Effect) : Prop :=
  match e with
  | MarkLazyLoadingArt model index | SetDecoration model index _ =>
      index_model index = model
  | _ => True
  end.

(** The collaborators of [SelectedMimeData]:
    [TidalSearchModel::GetChildResults] and [TidalSearch::LoadTracks], which
    may return a null pointer. *)
Class TrackLoader := {
  GetChildResults : list QStandardItem -> ResultList;
  LoadTracks : ResultList -> option MimeData;
}.

Definition is_divider (index : ProxyIndex) : bool :=
  Role_IsDivider (item_data (index_item index)).

(** [TidalSearchView::SelectedMimeData].  [selectedRows] is what the
    selection model of [ui_->results] reports and [front_rows] are the
    top-level rows of [front_proxy_]; the widget has a selection model once
    a model has been installed in it. *)
Definition SelectedMimeData `{TrackLoader}
    (selectedRows front_rows : list ProxyIndex) (s : TidalSearchView)
    : option MimeData * list Effect :=
  match results (ui_ s) with
  | None => (None, [])
  | Some _ =>
      let (indexes, effects) :=
        match selectedRows with
        | [] =>
            (* There's nothing selected - take the first thing in the model
               that isn't a divider. *)
            match List.find (fun index => negb (is_divider index)) front_rows with
            | Some index => ([index], [SetCurrentIndex index])
            | None => ([], [])
            end
        | _ :: _ => (selectedRows, [])
        end in
      match indexes with
      | [] => (None, effects)
      | _ :: _ => (LoadTracks (GetChildResults (map index_item indexes)), effects)
      end
  end.

(** [TidalSearchView::AddSelectedToPlaylist]. *)
Definition AddSelectedToPlaylist `{TrackLoader}
    (selectedRows front_rows : list ProxyIndex) (s : TidalSearchView) : list Effect :=
  let (data, effects) := SelectedMimeData selectedRows front_rows s in
  effects ++ [AddToPlaylist data].

(** [TidalSearchView::LoadSelected]. *)
Definition LoadSelected `{TrackLoader}
    (selectedRows front_rows : list ProxyIndex) (s : TidalSearchView) : list Effect :=
  let (data, effects) := SelectedMimeData selectedRows front_rows s in
  match data with
  | None => effects
  | Some d =>
      effects ++ [AddToPlaylist
                    (Some (mkMimeData (tracks d) true (enqueue_now_ d)
                             (open_in_new_playlist_ d)))]
  end.

(** [TidalSearchView::AddSelectedToPlaylistEnqueue]. *)
Definition AddSelectedToPlaylistEnqueue `{TrackLoader}
    (selectedRows front_rows : list ProxyIndex) (s : TidalSearchView) : list Effect :=
  let (data, effects) := SelectedMimeData selectedRows front_rows s in
  match data with
  | None => effects
  | Some d =>
      effects ++ [AddToPlaylist
                    (Some (mkMimeData (tracks d) (clear_first_ d) true
                             (open_in_new_playlist_ d)))]
  end.

(** [TidalSearchView::OpenSelectedInNewPlaylist]. *)
Definition OpenSelectedInNewPlaylist `{TrackLoader}
    (selectedRows front_rows : list ProxyIndex) (s : TidalSearchView) : list Effect :=
  let (data, effects) := SelectedMimeData selectedRows front_rows s in
  match data with
  | None => effects
  | Some d =>
      effects ++ [AddToPlaylist
                    (Some (mkMimeData (tracks d) (clear_first_ d) (enqueue_now_ d) true))]
  end.

(** [TidalSearchView::SearchForThis]: [None] when the slot dereferences the
    missing selection model or takes the first of no selected rows. *)
Definition SearchForThis (selectedRows : list ProxyIndex) (s : TidalSearchView)
    : option TidalSearchView :=
  match results (ui_ s), selectedRows with
  | Some _, index :: _ => Some (StartSearch (DisplayRole (item_data (index_item index))) s)
  | _, _ => None
  end.

(** The keys [SearchKeyEvent] tells apart. *)
Inductive Key := Key_Up | Key_Down | Key_Escape | Key_Return | Key_other (code : Z).

(** [TidalSearchView::SearchKeyEvent]: whether the key was handled, the
    view afterwards and the effects. *)
Definition SearchKeyEvent `{TrackLoader} (key : Key)
    (selectedRows front_rows : list ProxyIndex) (s : TidalSearchView)
    : bool * TidalSearchView * list Effect :=
  match key with
  | Key_Up => (true, s, [UpAndFocus; Accept])
  | Key_Down => (true, s, [DownAndFocus; Accept])
  | Key_Escape => (true, search_setText [] s, [Accept])
  | Key_Return => (true, s, AddSelectedToPlaylist selectedRows front_rows s ++ [Accept])
  | Key_other _ => (false, s, [])
  end.

(** Example items: an album with two tracks, below a divider. *)
Definition example_track (title : string) : QStandardItem :=
  Item (mkItemData false 0 false (qstr title) (qstr title)) [].

Definition example_album : QStandardItem :=
  Item (mkItemData false 2 false [] (qstr "Kind of Blue"))
       [example_track "So What"; example_track "Blue in Green"].

Definition example_divider : QStandardItem :=
  Item (mkItemData true 0 false [] (qstr "K")) [].

Definition example_albums : AlbumEnumValues :=
  {| GroupBy_AlbumArtist := 4; GroupBy_YearAlbum := 6; GroupBy_OriginalYearAlbum := 10 |}.

Definition example_loader : TrackLoader :=
  {| GetChildResults items := map (fun i => Role_Result (item_data (first_track i))) items;
     LoadTracks rs := match rs with
                      | [] => None
                      | _ :: _ => Some (mkMimeData rs false false false)
                      end |}.

(** ** Properties *)

(** *** How each slot changes the members *)

Ltac unfold_slots :=
  unfold StartSearch, search_setText, search_textChanged, SetSearchBy,
    TextEdited, AddResults, SearchError, SwapModels, SetGroupBy.

Ltac case_guards :=
  repeat match goal with
    | |- context [if ?b then _ else _] => destruct b
    | |- context [match ?l with [] => _ | _ :: _ => _ end] => destruct l
    end.

Lemma TextEdited_pointers text s :
  front_model_ (TextEdited text s) = front_model_ s
  /\ back_model_ (TextEdited text s) = back_model_ s
  /\ current_model_ (TextEdited text s) = back_model_ s
  /\ front_proxy_ (TextEdited text s) = front_proxy_ s
  /\ back_proxy_ (TextEdited text s) = back_proxy_ s
  /\ current_proxy_ (TextEdited text s) = back_proxy_ s.
Proof. unfold TextEdited; simpl; case_guards; simpl; auto 10. Qed.

Lemma TextEdited_frame text s :
  proxies (TextEdited text s) = proxies s
  /\ results (ui_ (TextEdited text s)) = results (ui_ s)
  /\ search (ui_ (TextEdited text s)) = search (ui_ s)
  /\ results_stack (ui_ (TextEdited text s)) = results_stack (ui_ s)
  /\ error_ (TextEdited text s) = false
  /\ swap_models_timer_ (TextEdited text s) = start (swap_models_timer_ s)
  /\ models (TextEdited text s)
     = model_call (back_model_ s) TidalSearchModel.Clear (models s).
Proof. unfold TextEdited; simpl; case_guards; simpl; auto 10. Qed.

Lemma TextEdited_engine text s :
  TidalSearch.requests (engine_ (TextEdited text s))
  = TidalSearch.requests (engine_ s)
    ++ TidalSearch.CancelSearchReq (last_search_id_ s)
       :: (if blank text then []
           else [TidalSearch.SearchAsyncReq (TidalSearch.next_id_ (engine_ s))
                   (trimmed text) (searchby_ s)]).
Proof.
  unfold TextEdited, blank; simpl.
  destruct (isEmpty (trimmed text)); simpl; [reflexivity|].
  now rewrite <- app_assoc.
Qed.

Lemma TextEdited_id text s :
  last_search_id_ (TextEdited text s)
  = if blank text then -1 else TidalSearch.next_id_ (engine_ s).
Proof. unfold TextEdited, blank; simpl; case_guards; reflexivity. Qed.

Lemma model_call_same p f h : model_at (model_call p f h) p = f (model_at h p).
Proof. now destruct p. Qed.

Lemma model_call_other p q f h :
  p <> q -> model_at (model_call p f h) q = model_at h q.
Proof. destruct p, q; simpl; congruence. Qed.

Lemma AddResults_stale id rs s :
  id <> last_search_id_ s -> AddResults id rs s = s.
Proof.
  intros Hid. unfold AddResults.
  destruct (Z.eqb_spec id (last_search_id_ s)); [contradiction | reflexivity].
Qed.

Lemma AddResults_frame id rs s :
  engine_ (AddResults id rs s) = engine_ s
  /\ ui_ (AddResults id rs s) = ui_ s
  /\ proxies (AddResults id rs s) = proxies s
  /\ last_search_id_ (AddResults id rs s) = last_search_id_ s
  /\ front_model_ (AddResults id rs s) = front_model_ s
  /\ back_model_ (AddResults id rs s) = back_model_ s
  /\ front_proxy_ (AddResults id rs s) = front_proxy_ s
  /\ back_proxy_ (AddResults id rs s) = back_proxy_ s
  /\ swap_models_timer_ (AddResults id rs s) = swap_models_timer_ s.
Proof. unfold AddResults; case_guards; simpl; auto 12. Qed.

Lemma SwapModels_pointers s :
  models (SwapModels s) = models s
  /\ proxies (SwapModels s) = proxies s
  /\ front_model_ (SwapModels s) = back_model_ s
  /\ back_model_ (SwapModels s) = front_model_ s
  /\ front_proxy_ (SwapModels s) = back_proxy_ s
  /\ back_proxy_ (SwapModels s) = front_proxy_ s
  /\ results (ui_ (SwapModels s)) = Some (back_proxy_ s).
Proof. unfold SwapModels; simpl; case_guards; simpl; auto 10. Qed.

Lemma SwapModels_frame s :
  engine_ (SwapModels s) = engine_ s
  /\ last_search_id_ (SwapModels s) = last_search_id_ s
  /\ current_model_ (SwapModels s) = current_model_ s
  /\ swap_models_timer_ (SwapModels s) = swap_models_timer_ s
  /\ art_requests_ (SwapModels s) = ∅
  /\ results_stack (ui_ (SwapModels s))
     = if blank (search (ui_ s)) || error_ s then help_page else results_page.
Proof. unfold SwapModels, blank; simpl; case_guards; simpl; auto 10. Qed.

Lemma SetGroupBy_frame g s :
  engine_ (SetGroupBy g s) = engine_ s
  /\ ui_ (SetGroupBy g s) = ui_ s
  /\ proxies (SetGroupBy g s) = proxies s
  /\ last_search_id_ (SetGroupBy g s) = last_search_id_ s
  /\ front_model_ (SetGroupBy g s) = front_model_ s
  /\ back_model_ (SetGroupBy g s) = back_model_ s
  /\ current_model_ (SetGroupBy g s) = current_model_ s
  /\ front_proxy_ (SetGroupBy g s) = front_proxy_ s
  /\ back_proxy_ (SetGroupBy g s) = back_proxy_ s
  /\ swap_models_timer_ (SetGroupBy g s) = swap_models_timer_ s
  /\ art_requests_ (SetGroupBy g s) = ∅.
Proof. unfold SetGroupBy; simpl; auto 12. Qed.

Lemma SetGroupBy_models g s p :
  TidalSearchModel.results (model_at (models (SetGroupBy g s)) p)
  = TidalSearchModel.results (model_at (models s) p).
Proof.
  unfold SetGroupBy; simpl.
  destruct (front_model_ s), (back_model_ s), p; reflexivity.
Qed.

Lemma SetGroupBy_grouping g s :
  TidalSearchModel.group_by_ (model_at (models (SetGroupBy g s)) (front_model_ s)) = g
  /\ TidalSearchModel.group_by_ (model_at (models (SetGroupBy g s)) (back_model_ s)) = g.
Proof.
  unfold SetGroupBy; simpl.
  destruct (front_model_ s), (back_model_ s); split; reflexivity.
Qed.

(** *** The invariant of the view *)

(** [view_inv] only reads the proxies, the front/back pointers, the
    configuration of the timer and the model of the results view. *)
Lemma view_inv_transfer s s' :
  proxies s' = proxies s ->
  front_model_ s' = front_model_ s -> back_model_ s' = back_model_ s ->
  front_proxy_ s' = front_proxy_ s -> back_proxy_ s' = back_proxy_ s ->
  singleShot (swap_models_timer_ s') = singleShot (swap_models_timer_ s) ->
  interval (swap_models_timer_ s') = interval (swap_models_timer_ s) ->
  results (ui_ s') = results (ui_ s) ->
  view_inv s -> view_inv s'.
Proof.
  unfold view_inv, paired, timer_configured, shows_front.
  intros -> -> -> -> -> -> -> ->. trivial.
Qed.

Lemma TextEdited_inv text s : view_inv s -> view_inv (TextEdited text s).
Proof.
  destruct (TextEdited_pointers text s) as (? & ? & _ & ? & ? & _).
  destruct (TextEdited_frame text s) as (? & ? & _ & _ & _ & Ht & _).
  apply view_inv_transfer; try assumption; now rewrite Ht.
Qed.

Lemma AddResults_inv id rs s : view_inv s -> view_inv (AddResults id rs s).
Proof.
  destruct (AddResults_frame id rs s) as (_ & Hu & ? & _ & ? & ? & ? & ? & Ht).
  apply view_inv_transfer; try assumption; now rewrite ?Ht, ?Hu.
Qed.

Lemma SearchError_inv id error s : view_inv s -> view_inv (SearchError id error s).
Proof. apply view_inv_transfer; reflexivity. Qed.

Lemma SwapModels_inv s : view_inv s -> view_inv (SwapModels s).
Proof.
  destruct (SwapModels_pointers s) as (_ & Hp & Hf & Hb & Hfp & Hbp & Hr).
  destruct (SwapModels_frame s) as (_ & _ & _ & Ht & _).
  unfold view_inv, paired, timer_configured, shows_front.
  rewrite Hp, Hf, Hb, Hfp, Hbp, Hr, Ht.
  intros ((Hfm & Hbm & Hne) & Hcfg & _).
  split; [|split]; [repeat split; auto | exact Hcfg | now right].
Qed.

Lemma SetGroupBy_inv g s : view_inv s -> view_inv (SetGroupBy g s).
Proof.
  destruct (SetGroupBy_frame g s) as (_ & Hu & ? & _ & ? & ? & _ & ? & ? & Ht & _).
  apply view_inv_transfer; try assumption; now rewrite ?Ht, ?Hu.
Qed.

Lemma ReloadSettings_inv `{EnumValues} s : view_inv s -> view_inv (ReloadSettings s).
Proof.
  intros Hs. unfold ReloadSettings. apply SetGroupBy_inv.
  revert Hs. apply view_inv_transfer; simpl; case_guards; reflexivity.
Qed.

Lemma search_textChanged_inv text s : view_inv s -> view_inv (search_textChanged text s).
Proof.
  intros Hs. apply TextEdited_inv. revert Hs. apply view_inv_transfer; reflexivity.
Qed.

Lemma StartSearch_inv query s : view_inv s -> view_inv (StartSearch query s).
Proof.
  intros Hs. unfold StartSearch. apply SwapModels_inv.
  assert (Hq : view_inv (search_setText query s)).
  { unfold search_setText. case_guards; [assumption | now apply search_textChanged_inv]. }
  apply (TextEdited_inv query) in Hq. revert Hq.
  apply view_inv_transfer; reflexivity.
Qed.

Lemma SetSearchBy_inv searchby s : view_inv s -> view_inv (SetSearchBy searchby s).
Proof.
  intros Hs. apply TextEdited_inv. revert Hs. apply view_inv_transfer; reflexivity.
Qed.

Lemma rearm_config t :
  singleShot (rearm t) = singleShot t /\ interval (rearm t) = interval t.
Proof. unfold rearm. destruct t as [[] ? ?]; split; reflexivity. Qed.

Lemma elapse_inv msec s : view_inv s -> view_inv (elapse msec s).
Proof.
  intros Hs. unfold elapse.
  destruct (remaining (swap_models_timer_ s)) as [ms|]; [|assumption].
  destruct (msec <=? 0); [assumption|].
  destruct (msec <? ms).
  - revert Hs. apply view_inv_transfer; reflexivity.
  - apply SwapModels_inv. revert Hs.
    apply view_inv_transfer; try reflexivity; simpl; apply rearm_config.
Qed.

Lemma deliver_inv `{EnumValues} s ev : view_inv s -> view_inv (deliver s ev).
Proof.
  intros Hs. destruct ev; simpl.
  - now apply search_textChanged_inv.
  - now apply StartSearch_inv.
  - now apply elapse_inv.
  - now apply AddResults_inv.
  - now apply SearchError_inv.
  - now apply SetGroupBy_inv.
  - now apply SetSearchBy_inv.
  - now apply SetSearchBy_inv.
  - apply ReloadSettings_inv. revert Hs. apply view_inv_transfer; reflexivity.
Qed.

Lemma run_inv `{EnumValues} evs s : view_inv s -> view_inv (run evs s).
Proof.
  revert s. induction evs as [|ev evs IH]; intros s Hs; simpl; [assumption|].
  apply IH. now apply deliver_inv.
Qed.

Lemma TidalSearchView_new_inv `{EnumValues} env : view_inv (TidalSearchView_new env).
Proof.
  unfold TidalSearchView_new. apply ReloadSettings_inv.
  unfold view_inv, paired, timer_configured, shows_front; simpl.
  repeat split; auto; discriminate.
Qed.

(** Every state the view can be in satisfies the invariant. *)
Lemma reachable_inv `{EnumValues} env evs : view_inv (run evs (TidalSearchView_new env)).
Proof. apply run_inv, TidalSearchView_new_inv. Qed.

(** *** The outstanding search id *)

Lemma elapse_last_search_id msec s :
  last_search_id_ (elapse msec s) = last_search_id_ s.
Proof.
  unfold elapse.
  destruct (remaining (swap_models_timer_ s)); [|reflexivity].
  case_guards; try reflexivity.
  now destruct (SwapModels_frame (with_timer (rearm (swap_models_timer_ s)) s))
    as (_ & -> & _).
Qed.

Lemma ReloadSettings_last_search_id `{EnumValues} s :
  last_search_id_ (ReloadSettings s) = last_search_id_ s.
Proof.
  unfold ReloadSettings.
  match goal with |- last_search_id_ (SetGroupBy ?g ?s') = _ =>
    destruct (SetGroupBy_frame g s') as (_ & _ & _ & -> & _) end.
  simpl. case_guards; reflexivity.
Qed.

Lemma quiet_last_search_id `{EnumValues} ev s :
  quiet ev = true -> last_search_id_ (deliver s ev) = last_search_id_ s.
Proof.
  destruct ev; cbn [deliver quiet]; try discriminate; intros _.
  - apply elapse_last_search_id.
  - now destruct (AddResults_frame id rs s) as (_ & _ & _ & -> & _).
  - reflexivity.
  - now destruct (SetGroupBy_frame g s) as (_ & _ & _ & -> & _).
  - now rewrite ReloadSettings_last_search_id.
Qed.

Lemma quiet_run_last_search_id `{EnumValues} evs s :
  forallb quiet evs = true -> last_search_id_ (run evs s) = last_search_id_ s.
Proof.
  revert s. induction evs as [|ev evs IH]; intros s Hq; simpl in *; [reflexivity|].
  apply andb_prop in Hq as [Hev Hq].
  rewrite IH by assumption. now apply quiet_last_search_id.
Qed.

(** *** Results and errors delivered by the engine *)

(** C1.  After any sequence of submitted texts, and whatever the timer, the
    engine or a regrouping did since the last of them, the view waits for
    the id issued by the last submission; a result event with any other id
    leaves the whole view, both containers included, exactly as it was, so a
    result event that changes anything carries the id issued last. *)
Theorem AddResults_applies_only_the_last_issued_id `{EnumValues} :
  forall (s0 : TidalSearchView) (texts : list QString) (text : QString)
         (evs : list Event) (id : Z) (rs : ResultList),
    forallb quiet evs = true ->
    let issued := fst (submit text (submit_all texts s0)) in
    let s := run evs (snd (submit text (submit_all texts s0))) in
    last_search_id_ s = issued
    /\ (id <> issued -> AddResults id rs s = s)
    /\ (AddResults id rs s <> s -> id = issued).
Proof.
  intros s0 texts text evs id rs Hq issued s.
  assert (Hlast : last_search_id_ s = issued).
  { subst s issued. now rewrite quiet_run_last_search_id. }
  split; [exact Hlast|]. rewrite <- Hlast. split.
  - apply AddResults_stale.
  - intros Hchanged. destruct (Z.eq_dec id (last_search_id_ s)) as [|Hne]; [assumption|].
    contradict Hchanged. now apply AddResults_stale.
Qed.

Lemma AddResults_applies_only_the_last_issued_id_witness :
  let s := @run example_enums [TimePasses 100]
             (snd (submit (qstr "ab") (submit_all [qstr "a"] example_view))) in
  last_search_id_ s = 2 /\ AddResults 1 [qstr "Song X"] s = s.
Proof.
  destruct (@AddResults_applies_only_the_last_issued_id example_enums
              example_view [qstr "a"] (qstr "ab") [TimePasses 100] 1
              [qstr "Song X"] eq_refl) as (Hlast & Hdrop & _).
  split; [exact Hlast | apply Hdrop; vm_compute; discriminate].
Defined.

(** [SearchError] never reads its [id] argument. *)
Lemma SearchError_ignores_id id id' error s :
  SearchError id error s = SearchError id' error s.
Proof. reflexivity. Qed.

(** C2.  [SearchError] has no staleness check: with id 2 outstanding, the
    error event of the cancelled search 1 sets [error_], replaces the help
    text and raises the help page. *)
Theorem SearchError_applies_a_stale_id :
  let s := snd (submit (qstr "ab") (snd (submit (qstr "a") example_view))) in
  let s' := SearchError 1 (qstr "timeout") s in
  last_search_id_ s = 2
  /\ error_ s = false /\ error_ s' = true
  /\ label_helptext (ui_ s') = qstr "timeout"
  /\ results_stack (ui_ s') = help_page
  /\ s' <> s
  /\ AddResults 1 [qstr "Song X"] s = s.
Proof.
  cbv zeta.
  refine (conj _ (conj _ (conj _ (conj _ (conj _ (conj _ _)))))).
  1-5: vm_compute; reflexivity.
  - intros Heq. apply (f_equal error_) in Heq. vm_compute in Heq. discriminate.
  - apply AddResults_stale; vm_compute; discriminate.
Qed.

(** C10.  A result event with an empty list changes nothing, whatever its
    id: both containers keep their contents. *)
Theorem AddResults_empty_list_changes_nothing :
  forall (id : Z) (s : TidalSearchView), AddResults id [] s = s.
Proof. intros id s. unfold AddResults. now destruct (negb _). Qed.

(** *** Submitting a query *)

(** C3 as stated fails: a blank text does send a request to the engine, the
    cancellation of the id outstanding so far. *)
Lemma blank_text_is_not_silent :
  ~ (forall (text : QString) (s : TidalSearchView),
       blank text = true ->
       last_search_id_ (TextEdited text s) = -1
       /\ TidalSearch.requests (engine_ (TextEdited text s))
          = TidalSearch.requests (engine_ s)).
Proof.
  intros Hclaim.
  destruct (Hclaim (qstr "  ") example_view eq_refl) as [_ Hsilent].
  vm_compute in Hsilent. discriminate.
Qed.

(** C3, amended.  [TextEdited] always cancels the id outstanding so far.
    For a text that is blank once trimmed it then stores the sentinel -1 and
    issues no search; otherwise it issues one search, for the trimmed text
    and the current search mode, and stores the id the engine returned. *)
Theorem TextEdited_cancels_then_searches_unless_blank :
  forall (text : QString) (s : TidalSearchView),
    let s' := TextEdited text s in
    if isEmpty (trimmed text) then
      last_search_id_ s' = -1
      /\ engine_ s' = TidalSearch.CancelSearch (last_search_id_ s) (engine_ s)
      /\ TidalSearch.searches (engine_ s') = TidalSearch.searches (engine_ s)
    else
      let cancelled := TidalSearch.CancelSearch (last_search_id_ s) (engine_ s) in
      let issued := TidalSearch.SearchAsync (trimmed text) (searchby_ s) cancelled in
      last_search_id_ s' = fst issued
      /\ engine_ s' = snd issued
      /\ TidalSearch.requests (engine_ s')
         = TidalSearch.requests (engine_ s)
           ++ [TidalSearch.CancelSearchReq (last_search_id_ s);
               TidalSearch.SearchAsyncReq (last_search_id_ s') (trimmed text)
                 (searchby_ s)].
Proof.
  intros text s. unfold TextEdited. simpl.
  destruct (isEmpty (trimmed text)); simpl.
  - repeat split. unfold TidalSearch.searches; simpl.
    rewrite List.filter_app; simpl. apply app_nil_r.
  - repeat split. now rewrite <- app_assoc.
Qed.

(** C4.  In every state the view can reach, [TextEdited] empties the back
    model and leaves the front model alone, makes the back model and its
    proxy the current ones, so that results for the new id land in the back
    model, and restarts the single-shot timer with 250 ms to run. *)
Theorem TextEdited_clears_back_and_restarts_timer `{EnumValues} :
  forall (env : Environment) (evs : list Event) (text : QString),
    let s := run evs (TidalSearchView_new env) in
    let s' := TextEdited text s in
    TidalSearchModel.results (model_at (models s') (back_model_ s)) = []
    /\ model_at (models s') (front_model_ s) = model_at (models s) (front_model_ s)
    /\ front_model_ s' = front_model_ s
    /\ back_model_ s' = back_model_ s
    /\ current_model_ s' = back_model_ s'
    /\ current_proxy_ s' = back_proxy_ s'
    /\ (forall r rs,
          TidalSearchModel.results
            (model_at (models (AddResults (last_search_id_ s') (r :: rs) s'))
               (back_model_ s')) = r :: rs)
    /\ swap_models_timer_ s' = mkTimer true 250 (Some 250).
Proof.
  intros env evs text s s'.
  destruct (reachable_inv env evs) as ((_ & _ & Hne) & (Hshot & Hint) & _).
  fold s in Hne, Hshot, Hint.
  destruct (TextEdited_pointers text s) as (Hf & Hb & Hc & _ & Hbp & Hcp).
  destruct (TextEdited_frame text s) as (_ & _ & _ & _ & _ & Ht & Hm).
  fold s' in Hf, Hb, Hc, Hbp, Hcp, Ht, Hm.
  assert (Hcleared :
    TidalSearchModel.results (model_at (models s') (back_model_ s)) = []).
  { rewrite Hm, model_call_same. reflexivity. }
  repeat split; try congruence.
  - rewrite Hm. apply model_call_other. congruence.
  - intros r rs. unfold AddResults. rewrite Z.eqb_refl. simpl.
    rewrite Hc, Hb, model_call_same. simpl. now rewrite Hcleared.
  - rewrite Ht. unfold start. rewrite Hshot, Hint. reflexivity.
Qed.

(** *** Swapping the models *)

Lemma search_setText_frame query s :
  search (ui_ (search_setText query s)) = query
  /\ front_model_ (search_setText query s) = front_model_ s
  /\ back_model_ (search_setText query s) = back_model_ s
  /\ front_proxy_ (search_setText query s) = front_proxy_ s
  /\ back_proxy_ (search_setText query s) = back_proxy_ s.
Proof.
  unfold search_setText. case_bool_decide as Hsame.
  - now rewrite <- Hsame.
  - unfold search_textChanged.
    set (s1 := with_ui (search_set query (ui_ s)) s).
    destruct (TextEdited_pointers query s1) as (-> & -> & _ & -> & -> & _).
    destruct (TextEdited_frame query s1) as (_ & _ & -> & _).
    repeat split.
Qed.

(** C5.  [StartSearch] returns with the timer stopped and the swap done: the
    front model and proxy are the ones that were at the back, the results
    view shows that proxy, and the results page (the help page for a blank
    query) is up; no later passing of time changes the view. *)
Theorem StartSearch_swaps_before_returning :
  forall (query : QString) (s : TidalSearchView),
    let s' := StartSearch query s in
    remaining (swap_models_timer_ s') = None
    /\ front_model_ s' = back_model_ s
    /\ back_model_ s' = front_model_ s
    /\ front_proxy_ s' = back_proxy_ s
    /\ back_proxy_ s' = front_proxy_ s
    /\ results (ui_ s') = Some (back_proxy_ s)
    /\ results_stack (ui_ s') = (if blank query then help_page else results_page)
    /\ (forall msec, elapse msec s' = s').
Proof.
  intros query s s'.
  destruct (search_setText_frame query s) as (Hq & Hf & Hb & Hfp & Hbp).
  set (s1 := search_setText query s) in *.
  destruct (TextEdited_pointers query s1) as (Hf2 & Hb2 & _ & Hfp2 & Hbp2 & _).
  destruct (TextEdited_frame query s1) as (_ & _ & Hq2 & _ & Herr & _).
  set (s2 := TextEdited query s1) in *.
  set (s3 := with_timer (stop (swap_models_timer_ s2)) s2).
  destruct (SwapModels_pointers s3) as (_ & _ & Hf3 & Hb3 & Hfp3 & Hbp3 & Hres).
  destruct (SwapModels_frame s3) as (_ & _ & _ & Ht & _ & Hstack).
  assert (Hs' : s' = SwapModels s3) by reflexivity.
  clearbody s' s2 s1. subst s'. simpl in *.
  assert (Hstopped : remaining (swap_models_timer_ (SwapModels s3)) = None)
    by now rewrite Ht.
  refine (conj _ (conj _ (conj _ (conj _ (conj _ (conj _ (conj _ _))))))).
  - exact Hstopped.
  - congruence.
  - congruence.
  - congruence.
  - congruence.
  - congruence.
  - rewrite Hstack, Herr, Hq2, Hq, orb_false_r. reflexivity.
  - intros msec. unfold elapse. now rewrite Hstopped.
Qed.

(** C6.  [SwapModels] touches neither model nor proxy object; it exchanges
    the two model pointers and the two proxy pointers and installs the new
    front proxy in the results view.  In every state the view can reach,
    what is visible after the swap is exactly what the back model held
    before it, and what was visible before, if anything, was exactly what
    the front model held. *)
Theorem SwapModels_exchanges_front_and_back `{EnumValues} :
  (forall s : TidalSearchView,
     models (SwapModels s) = models s
     /\ proxies (SwapModels s) = proxies s
     /\ front_model_ (SwapModels s) = back_model_ s
     /\ back_model_ (SwapModels s) = front_model_ s
     /\ front_proxy_ (SwapModels s) = back_proxy_ s
     /\ back_proxy_ (SwapModels s) = front_proxy_ s
     /\ results (ui_ (SwapModels s)) = Some (front_proxy_ (SwapModels s)))
  /\ (forall (env : Environment) (evs : list Event),
        let s := run evs (TidalSearchView_new env) in
        front_model_ s <> back_model_ s
        /\ visible_results (SwapModels s)
           = Some (TidalSearchModel.results (model_at (models s) (back_model_ s)))
        /\ (visible_results s = None
            \/ visible_results s
               = Some (TidalSearchModel.results (model_at (models s) (front_model_ s))))).
Proof.
  split.
  - intros s.
    destruct (SwapModels_pointers s) as (Hm & Hp & Hf & Hb & Hfp & Hbp & Hr).
    repeat split; congruence.
  - intros env evs s.
    destruct (reachable_inv env evs) as ((Hfront & Hback & Hne) & _ & Hshown).
    fold s in Hfront, Hback, Hne, Hshown.
    destruct (SwapModels_pointers s) as (Hm & Hp & _ & _ & _ & _ & Hr).
    split; [exact Hne|]. split.
    + unfold visible_results. rewrite Hr, Hp, Hm. simpl. now rewrite Hback.
    + unfold visible_results.
      destruct Hshown as [-> | ->]; [now left | right].
      simpl. now rewrite Hfront.
Qed.

(** *** Artwork requests and regrouping *)

(** C7.  Whatever the artwork-request map held, it is empty after
    [SwapModels], after [StartSearch], which swaps, and after [SetGroupBy]. *)
Theorem art_requests_cleared_by_swap_and_regroup :
  forall (s : TidalSearchView) (g : Grouping) (query : QString),
    art_requests_ (SwapModels s) = ∅
    /\ art_requests_ (StartSearch query s) = ∅
    /\ art_requests_ (SetGroupBy g s) = ∅.
Proof.
  intros s g query. split; [|split].
  - now destruct (SwapModels_frame s) as (_ & _ & _ & _ & -> & _).
  - unfold StartSearch.
    match goal with |- art_requests_ (SwapModels ?s') = _ =>
      now destruct (SwapModels_frame s') as (_ & _ & _ & _ & -> & _) end.
  - reflexivity.
Qed.

(** C8.  [SetGroupBy] gives the new grouping to the front and to the back
    model, keeps the results each of them holds, and empties the
    artwork-request map; the models keep their roles, and the outstanding
    search and the swap timer go on as before. *)
Theorem SetGroupBy_regroups_both_and_keeps_results :
  forall (g : Grouping) (s : TidalSearchView),
    let s' := SetGroupBy g s in
    TidalSearchModel.group_by_ (model_at (models s') (front_model_ s')) = g
    /\ TidalSearchModel.group_by_ (model_at (models s') (back_model_ s')) = g
    /\ TidalSearchModel.results (model_at (models s') (back_model_ s'))
       = TidalSearchModel.results (model_at (models s) (back_model_ s))
    /\ TidalSearchModel.results (model_at (models s') (front_model_ s'))
       = TidalSearchModel.results (model_at (models s) (front_model_ s))
    /\ art_requests_ s' = ∅
    /\ front_model_ s' = front_model_ s
    /\ back_model_ s' = back_model_ s
    /\ current_model_ s' = current_model_ s
    /\ last_search_id_ s' = last_search_id_ s
    /\ swap_models_timer_ s' = swap_models_timer_ s.
Proof.
  intros g s s'.
  destruct (SetGroupBy_frame g s)
    as (_ & _ & _ & Hid & Hf & Hb & Hc & _ & _ & Ht & Hart).
  destruct (SetGroupBy_grouping g s) as (Hgf & Hgb).
  fold s' in Hid, Hf, Hb, Hc, Ht, Hart, Hgf, Hgb.
  rewrite Hf, Hb. repeat split; try assumption; apply SetGroupBy_models.
Qed.

(** *** Blank queries *)

Lemma blank_submit_searches text s :
  blank text = true ->
  TidalSearch.searches (engine_ (search_textChanged text s))
  = TidalSearch.searches (engine_ s).
Proof.
  intros Hblank. unfold search_textChanged, TidalSearch.searches.
  rewrite TextEdited_engine, Hblank, List.filter_app. simpl. apply app_nil_r.
Qed.

Lemma blank_submits_searches texts s :
  forallb blank texts = true ->
  TidalSearch.searches (engine_ (submit_all texts s))
  = TidalSearch.searches (engine_ s).
Proof.
  revert s. induction texts as [|text texts IH]; intros s Hblank; [reflexivity|].
  simpl in Hblank. apply andb_prop in Hblank as [Htext Hblank].
  change (submit_all (text :: texts) s)
    with (submit_all texts (search_textChanged text s)).
  rewrite IH by assumption. now apply blank_submit_searches.
Qed.

(** A non-empty run of blank submissions ends with a blank submission. *)
Lemma blank_submits_last text texts s :
  forallb blank (text :: texts) = true -> view_inv s ->
  exists t s0,
    blank t = true /\ view_inv s0
    /\ submit_all (text :: texts) s = search_textChanged t s0.
Proof.
  revert text s. induction texts as [|text' texts IH]; intros text s Hblank Hs.
  - exists text, s. simpl in Hblank. rewrite andb_true_r in Hblank. auto.
  - simpl in Hblank. apply andb_prop in Hblank as [Htext Hblank].
    change (submit_all (text :: text' :: texts) s)
      with (submit_all (text' :: texts) (search_textChanged text s)).
    apply IH; [exact Hblank | now apply search_textChanged_inv].
Qed.

(** C9.  In every state the view can reach, one or more submissions of
    blank texts in a row leave the sentinel -1 as outstanding id, add no
    search to those already sent to the engine, and arm the swap timer;
    the swap, whether run at once or by the timer after 250 ms, shows the
    help page.  Every slot is a total function: none of them can fail. *)
Theorem blank_submits_end_on_the_help_page `{EnumValues} :
  forall (env : Environment) (evs : list Event) (text : QString)
         (texts : list QString),
    forallb blank (text :: texts) = true ->
    let s := run evs (TidalSearchView_new env) in
    let s' := submit_all (text :: texts) s in
    last_search_id_ s' = -1
    /\ TidalSearch.searches (engine_ s') = TidalSearch.searches (engine_ s)
    /\ remaining (swap_models_timer_ s') = Some kSwapModelsTimeoutMsec
    /\ results_stack (ui_ (SwapModels s')) = help_page
    /\ results_stack (ui_ (elapse kSwapModelsTimeoutMsec s')) = help_page.
Proof.
  intros env evs text texts Hblank s s'.
  assert (Hsearches :
    TidalSearch.searches (engine_ s') = TidalSearch.searches (engine_ s))
    by now apply blank_submits_searches.
  destruct (blank_submits_last text texts s Hblank (reachable_inv env evs))
    as (t & s0 & Ht & (_ & (Hshot & Hint) & _) & Hlast).
  fold s' in Hlast. clearbody s' s. subst s'.
  unfold search_textChanged in *.
  set (s1 := with_ui (search_set t (ui_ s0)) s0) in *.
  assert (Hsearch : search (ui_ s1) = t) by reflexivity.
  assert (Htimer : swap_models_timer_ s1 = swap_models_timer_ s0) by reflexivity.
  clearbody s1.
  destruct (TextEdited_frame t s1) as (_ & _ & Hq & _ & Herr & Htm & _).
  pose proof (TextEdited_id t s1) as Hid. rewrite Ht in Hid.
  set (s2 := TextEdited t s1) in *. clearbody s2.
  assert (Hleft : remaining (swap_models_timer_ s2) = Some kSwapModelsTimeoutMsec).
  { rewrite Htm, Htimer. unfold start; simpl. now rewrite Hint. }
  assert (Hhelp : forall s3,
            search (ui_ s3) = search (ui_ s2) -> error_ s3 = error_ s2 ->
            results_stack (ui_ (SwapModels s3)) = help_page).
  { intros s3 Hq3 Herr3.
    destruct (SwapModels_frame s3) as (_ & _ & _ & _ & _ & ->).
    now rewrite Hq3, Herr3, Hq, Hsearch, Ht. }
  repeat split; try assumption.
  - now apply Hhelp.
  - unfold elapse. rewrite Hleft. simpl. now apply Hhelp.
Qed.

Lemma blank_submits_end_on_the_help_page_witness :
  let s := @run example_enums
             [SearchTextChanged (qstr "jazz");
              EngineAddResults 1 [qstr "Track A"; qstr "Track B"];
              TimePasses 250]
             (@TidalSearchView_new example_enums example_env) in
  let s' := submit_all [qstr ""; qstr "  "] s in
  results_stack (ui_ s) = results_page
  /\ last_search_id_ s' = -1
  /\ results_stack (ui_ (elapse kSwapModelsTimeoutMsec s')) = help_page.
Proof.
  destruct (@blank_submits_end_on_the_help_page example_enums example_env
              [SearchTextChanged (qstr "jazz");
               EngineAddResults 1 [qstr "Track A"; qstr "Track B"];
               TimePasses 250]
              (qstr "") [qstr "  "] eq_refl) as (Hid & _ & _ & _ & Hhelp).
  split; [vm_compute; reflexivity | split; [exact Hid | exact Hhelp]].
Defined.

(** *** The examples of section 8 of the specification *)

(** submit "a" gives id 1, submit "ab" gives id 2 and cancels 1; a result
    for id 1 changes nothing; a result for id 2 lands in the back model. *)
Example superseded_search_example :
  let s := snd (submit (qstr "ab") (snd (submit (qstr "a") example_view))) in
  fst (submit (qstr "a") example_view) = 1
  /\ last_search_id_ s = 2
  /\ TidalSearch.requests (engine_ s)
     = [TidalSearch.CancelSearchReq 0; TidalSearch.SearchAsyncReq 1 (qstr "a") 1;
        TidalSearch.CancelSearchReq 1; TidalSearch.SearchAsyncReq 2 (qstr "ab") 1]
  /\ AddResults 1 [qstr "Song X"] s = s
  /\ TidalSearchModel.results
       (model_at (models (AddResults 2 [qstr "Song X"] s)) (back_model_ s))
     = [qstr "Song X"].
Proof.
  cbv zeta. refine (conj _ (conj _ (conj _ (conj _ _)))).
  1-3, 5: vm_compute; reflexivity.
  apply AddResults_stale; vm_compute; discriminate.
Qed.

(** submit "jazz", the engine answers with two tracks under the right id,
    the debounce time passes: the two tracks are visible. *)
Example end_to_end_example :
  let s := @run example_enums
             [SearchTextChanged (qstr "jazz");
              EngineAddResults 1 [qstr "Track A"; qstr "Track B"];
              TimePasses 250] example_view in
  visible_results s = Some [qstr "Track A"; qstr "Track B"]
  /\ results_stack (ui_ s) = results_page
  /\ remaining (swap_models_timer_ s) = None.
Proof. cbv zeta. refine (conj _ (conj _ _)); vm_compute; reflexivity. Qed.

(** A pending artwork request does not survive a swap or a regrouping. *)
Example art_requests_example :
  let s := with_art_requests {[ 7 := mkIndex model_1 0 ]} example_view in
  art_requests_ s !! 7 = Some (mkIndex model_1 0)
  /\ art_requests_ (SwapModels s) !! 7 = None
  /\ art_requests_ (SetGroupBy (mkGrouping 2 0 0) s) !! 7 = None.
Proof. cbv zeta. refine (conj _ (conj _ _)); vm_compute; reflexivity. Qed.

(** ** Further properties of the slots *)

(** *** The debounce timer *)

Lemma search_textChanged_frame text s :
  front_model_ (search_textChanged text s) = front_model_ s
  /\ back_model_ (search_textChanged text s) = back_model_ s
  /\ current_model_ (search_textChanged text s) = back_model_ s
  /\ proxies (search_textChanged text s) = proxies s
  /\ results (ui_ (search_textChanged text s)) = results (ui_ s)
  /\ results_stack (ui_ (search_textChanged text s)) = results_stack (ui_ s)
  /\ search (ui_ (search_textChanged text s)) = text
  /\ error_ (search_textChanged text s) = false
  /\ swap_models_timer_ (search_textChanged text s) = start (swap_models_timer_ s)
  /\ models (search_textChanged text s)
     = model_call (back_model_ s) TidalSearchModel.Clear (models s).
Proof.
  unfold search_textChanged.
  set (s1 := with_ui (search_set text (ui_ s)) s).
  destruct (TextEdited_pointers text s1) as (-> & -> & -> & _).
  destruct (TextEdited_frame text s1) as (-> & -> & -> & -> & -> & -> & ->).
  repeat split.
Qed.

(** Less than the remaining time passes: only the remaining time changes. *)
Lemma elapse_short msec ms s :
  remaining (swap_models_timer_ s) = Some ms -> msec < ms ->
  front_model_ (elapse msec s) = front_model_ s
  /\ back_model_ (elapse msec s) = back_model_ s
  /\ current_model_ (elapse msec s) = current_model_ s
  /\ proxies (elapse msec s) = proxies s
  /\ models (elapse msec s) = models s
  /\ ui_ (elapse msec s) = ui_ s
  /\ isActive (swap_models_timer_ (elapse msec s)) = true.
Proof.
  intros Hrem Hlt. unfold elapse, isActive. rewrite Hrem.
  destruct (msec <=? 0); [now rewrite Hrem|].
  destruct (Z.ltb_spec msec ms); [|lia]. repeat split.
Qed.

(** The remaining time runs out: the timer stops and the models swap. *)
Lemma elapse_fires msec ms s :
  singleShot (swap_models_timer_ s) = true ->
  remaining (swap_models_timer_ s) = Some ms -> 0 < ms <= msec ->
  elapse msec s = SwapModels (with_timer (stop (swap_models_timer_ s)) s).
Proof.
  intros Hshot Hrem Hle. unfold elapse. rewrite Hrem.
  destruct (Z.leb_spec msec 0); [lia|].
  destruct (Z.ltb_spec msec ms); [lia|].
  unfold rearm. now rewrite Hshot.
Qed.

Lemma keystroke_quiet text gap s :
  view_inv s -> gap < kSwapModelsTimeoutMsec ->
  let s' := elapse gap (search_textChanged text s) in
  view_inv s'
  /\ front_model_ s' = front_model_ s
  /\ back_model_ s' = back_model_ s
  /\ current_model_ s' = back_model_ s
  /\ proxies s' = proxies s
  /\ results (ui_ s') = results (ui_ s)
  /\ results_stack (ui_ s') = results_stack (ui_ s)
  /\ model_at (models s') (front_model_ s) = model_at (models s) (front_model_ s)
  /\ isActive (swap_models_timer_ s') = true.
Proof.
  intros Hinv Hgap s'.
  pose proof Hinv as ((_ & _ & Hne) & (_ & Hint) & _).
  destruct (search_textChanged_frame text s)
    as (Hf & Hb & Hc & Hp & Hr & Hst & _ & _ & Ht & Hm).
  assert (Hinv1 : view_inv (search_textChanged text s))
    by now apply search_textChanged_inv.
  set (s1 := search_textChanged text s) in *.
  assert (Hrem : remaining (swap_models_timer_ s1) = Some kSwapModelsTimeoutMsec).
  { rewrite Ht. unfold start; simpl. now rewrite Hint. }
  destruct (elapse_short gap _ s1 Hrem Hgap)
    as (Hf2 & Hb2 & Hc2 & Hp2 & Hm2 & Hu2 & Hact).
  assert (Hinv2 : view_inv s') by now apply elapse_inv.
  clearbody s1. fold s' in Hf2, Hb2, Hc2, Hp2, Hm2, Hu2, Hact. clearbody s'.
  rewrite Hm2, Hu2, Hm.
  split; [exact Hinv2|].
  repeat split; try congruence.
  apply model_call_other. congruence.
Qed.

(** X1.  While the user keeps typing with gaps shorter than 250 ms, the
    models are never swapped: the front model, what it holds, the installed
    proxy and the page on display stay as they were, and what is visible
    does not change. *)
Theorem keystrokes_never_swap `{EnumValues} :
  forall (env : Environment) (evs : list Event) (burst : list (QString * Z)),
    forallb (fun key => snd key <? kSwapModelsTimeoutMsec) burst = true ->
    let s := run evs (TidalSearchView_new env) in
    let s' := keystrokes burst s in
    front_model_ s' = front_model_ s
    /\ back_model_ s' = back_model_ s
    /\ model_at (models s') (front_model_ s) = model_at (models s) (front_model_ s)
    /\ results_stack (ui_ s') = results_stack (ui_ s)
    /\ visible_results s' = visible_results s.
Proof.
  intros env evs burst Hgaps s s'.
  pose proof (reachable_inv env evs) as Hinv. fold s in Hinv.
  clearbody s. subst s'. revert s Hinv.
  induction burst as [|[text gap] burst IH]; intros s Hinv.
  - repeat split.
  - simpl in Hgaps. apply andb_prop in Hgaps as [Hgap Hgaps].
    apply Z.ltb_lt in Hgap.
    destruct (keystroke_quiet text gap s Hinv Hgap)
      as (Hinv1 & Hf & Hb & _ & Hp & Hr & Hst & Hm & _).
    set (s1 := elapse gap (search_textChanged text s)) in *.
    change (keystrokes ((text, gap) :: burst) s) with (keystrokes burst s1).
    destruct (IH Hgaps s1 Hinv1) as (Hf' & Hb' & Hm' & Hst' & Hvis').
    clearbody s1.
    rewrite Hf', Hb', Hst', Hvis'. rewrite Hf in Hm'. rewrite Hm'.
    repeat split; try congruence.
    unfold visible_results. rewrite Hr, Hp.
    destruct Hinv as ((Hfront & _) & _ & [Hnone | Hshown]).
    + now rewrite Hnone.
    + rewrite Hshown. simpl. rewrite Hfront. simpl. now rewrite Hm.
Qed.

Lemma keystrokes_never_swap_witness :
  let s := @run example_enums
             [SearchTextChanged (qstr "jazz");
              EngineAddResults 1 [qstr "Track A"];
              TimePasses 250] example_view in
  let s' := keystrokes [(qstr "b", 100); (qstr "bl", 249); (qstr "blu", 30)] s in
  visible_results s = Some [qstr "Track A"]
  /\ visible_results s' = visible_results s.
Proof.
  destruct (@keystrokes_never_swap example_enums example_env
              [SearchTextChanged (qstr "jazz");
               EngineAddResults 1 [qstr "Track A"];
               TimePasses 250]
              [(qstr "b", 100); (qstr "bl", 249); (qstr "blu", 30)] eq_refl)
    as (_ & _ & _ & _ & Hvis).
  split; [vm_compute; reflexivity | exact Hvis].
Defined.

(** After a change of the search field in a state the view can reach, the
    timer has the full 250 ms to run. *)
Lemma search_textChanged_arms text s :
  view_inv s ->
  singleShot (swap_models_timer_ (search_textChanged text s)) = true
  /\ remaining (swap_models_timer_ (search_textChanged text s))
     = Some kSwapModelsTimeoutMsec.
Proof.
  intros (_ & (Hshot & Hint) & _).
  destruct (search_textChanged_frame text s) as (_ & _ & _ & _ & _ & _ & _ & _ & -> & _).
  unfold start; simpl. now rewrite Hint.
Qed.

(** X2.  Once 250 ms or more have passed after a change of the search
    field, the models have been swapped exactly once: front and back are
    exchanged against the state before, the timer is stopped, and no
    further passing of time changes the view. *)
Theorem quiet_period_swaps_once `{EnumValues} :
  forall (env : Environment) (evs : list Event) (text : QString) (msec : Z),
    kSwapModelsTimeoutMsec <= msec ->
    let s := run evs (TidalSearchView_new env) in
    let s2 := elapse msec (search_textChanged text s) in
    front_model_ s2 = back_model_ s
    /\ back_model_ s2 = front_model_ s
    /\ results (ui_ s2) = Some (back_proxy_ s)
    /\ isActive (swap_models_timer_ s2) = false
    /\ (forall later, elapse later s2 = s2).
Proof.
  intros env evs text msec Hmsec s s2.
  pose proof (reachable_inv env evs) as Hinv. fold s in Hinv. clearbody s.
  destruct (search_textChanged_arms text s Hinv) as (Hshot & Hrem).
  destruct (search_textChanged_frame text s) as (Hf & Hb & _).
  destruct (TextEdited_pointers text (with_ui (search_set text (ui_ s)) s))
    as (_ & _ & _ & _ & Hbp & _).
  change (back_proxy_ (search_textChanged text s) = back_proxy_ s) in Hbp.
  set (s1 := search_textChanged text s) in *.
  assert (Hfire : s2 = SwapModels (with_timer (stop (swap_models_timer_ s1)) s1)).
  { apply (elapse_fires msec kSwapModelsTimeoutMsec); try assumption.
    unfold kSwapModelsTimeoutMsec in *. lia. }
  clearbody s1 s2. subst s2.
  set (s3 := with_timer (stop (swap_models_timer_ s1)) s1).
  destruct (SwapModels_pointers s3) as (_ & _ & Hf3 & Hb3 & _ & _ & Hres).
  destruct (SwapModels_frame s3) as (_ & _ & _ & Ht & _).
  simpl in Hf3, Hb3, Hres, Ht.
  assert (Hstopped : remaining (swap_models_timer_ (SwapModels s3)) = None)
    by now rewrite Ht.
  refine (conj _ (conj _ (conj _ (conj _ _)))); try congruence.
  - unfold isActive. now rewrite Hstopped.
  - intros later. unfold elapse. now rewrite Hstopped.
Qed.

Lemma quiet_period_swaps_once_witness :
  let s := @run example_enums [] (@TidalSearchView_new example_enums example_env) in
  let s2 := elapse 400 (search_textChanged (qstr "jazz") s) in
  front_model_ s2 = back_model_ s /\ elapse 1000 s2 = s2.
Proof.
  destruct (@quiet_period_swaps_once example_enums example_env []
              (qstr "jazz") 400 ltac:(unfold kSwapModelsTimeoutMsec; lia))
    as (Hfront & _ & _ & _ & Hstill).
  split; [exact Hfront | exact (Hstill 1000)].
Defined.

(** X3.  [SwapModels] does not redirect [current_model_]: after the swap
    the results of the outstanding search are still accepted, and they are
    appended to the model that is now at the front, so they show up in the
    visible list. *)
Theorem late_results_reach_the_visible_model `{EnumValues} :
  forall (env : Environment) (evs : list Event) (text : QString) (msec : Z)
         (r : Result) (rs : ResultList),
    kSwapModelsTimeoutMsec <= msec ->
    let s := run evs (TidalSearchView_new env) in
    let s1 := search_textChanged text s in
    let s2 := elapse msec s1 in
    let s3 := AddResults (last_search_id_ s1) (r :: rs) s2 in
    current_model_ s2 = front_model_ s2
    /\ models s3
       = model_call (front_model_ s2) (TidalSearchModel.AddResults (r :: rs)) (models s2)
    /\ visible_results s2 = Some []
    /\ visible_results s3 = Some (r :: rs).
Proof.
  intros env evs text msec r rs Hmsec s s1 s2 s3.
  pose proof (reachable_inv env evs) as Hinv. fold s in Hinv. clearbody s.
  destruct (search_textChanged_arms text s Hinv) as (Hshot & Hrem).
  pose proof (search_textChanged_inv text s Hinv) as ((_ & Hback & _) & _).
  destruct (search_textChanged_frame text s)
    as (_ & Hb & Hc & _ & _ & _ & _ & _ & _ & Hm).
  fold s1 in Hshot, Hrem, Hback, Hb, Hc, Hm.
  assert (Hfire : s2 = SwapModels (with_timer (stop (swap_models_timer_ s1)) s1)).
  { apply (elapse_fires msec kSwapModelsTimeoutMsec); try assumption.
    unfold kSwapModelsTimeoutMsec in *. lia. }
  assert (Hid : last_search_id_ s2 = last_search_id_ s1)
    by apply elapse_last_search_id.
  clearbody s1 s2. subst s2.
  set (s2' := with_timer (stop (swap_models_timer_ s1)) s1) in *.
  destruct (SwapModels_pointers s2') as (Hm2 & Hp2 & Hf2 & _ & _ & _ & Hres).
  destruct (SwapModels_frame s2') as (_ & _ & Hc2 & _).
  simpl in Hm2, Hp2, Hf2, Hres, Hc2.
  set (s2 := SwapModels s2') in *. clearbody s2. clear s2'.
  assert (Hcur : current_model_ s2 = front_model_ s2) by congruence.
  assert (Hm3 : models s3
    = model_call (front_model_ s2) (TidalSearchModel.AddResults (r :: rs)) (models s2)).
  { subst s3. unfold AddResults. rewrite Hid, Z.eqb_refl. simpl. now rewrite Hcur. }
  assert (Hui3 : ui_ s3 = ui_ s2 /\ proxies s3 = proxies s2).
  { subst s3. now destruct (AddResults_frame (last_search_id_ s1) (r :: rs) s2)
      as (_ & -> & -> & _). }
  destruct Hui3 as (Hu3 & Hp3). clearbody s3.
  assert (Hempty : TidalSearchModel.results (model_at (models s2) (front_model_ s2)) = []).
  { rewrite Hm2, Hf2, Hm, Hb, model_call_same. reflexivity. }
  refine (conj Hcur (conj Hm3 (conj _ _))).
  - unfold visible_results. rewrite Hres, Hp2. simpl. rewrite Hback. simpl.
    now rewrite <- Hf2, Hempty.
  - unfold visible_results. rewrite Hu3, Hp3, Hres, Hp2. simpl. rewrite Hback. simpl.
    rewrite Hm3, <- Hf2, model_call_same. simpl. now rewrite Hempty.
Qed.

Lemma late_results_reach_the_visible_model_witness :
  let s := @run example_enums [] (@TidalSearchView_new example_enums example_env) in
  let s1 := search_textChanged (qstr "jazz") s in
  let s2 := elapse 250 s1 in
  visible_results s2 = Some []
  /\ visible_results (AddResults (last_search_id_ s1) [qstr "Track A"; qstr "Track B"] s2)
     = Some [qstr "Track A"; qstr "Track B"].
Proof.
  destruct (@late_results_reach_the_visible_model example_enums example_env []
              (qstr "jazz") 250 (qstr "Track A") [qstr "Track B"]
              ltac:(unfold kSwapModelsTimeoutMsec; lia))
    as (_ & _ & Hbefore & Hafter).
  split; [exact Hbefore | exact Hafter].
Defined.

(** *** Errors *)

(** X4.  An error raises the help page with the message at once, and a swap
    that follows keeps the help page up even though the search field holds
    a query.  The next change of the search field clears the error: if the
    new text is not blank the following swap brings up the results page,
    while the help text keeps the message until then. *)
Theorem error_lasts_until_the_next_query :
  forall (s : TidalSearchView) (id : Z) (error text : QString),
    blank text = false ->
    let s1 := SearchError id error s in
    let s2 := search_textChanged text s1 in
    results_stack (ui_ s1) = help_page
    /\ label_helptext (ui_ s1) = error
    /\ results_stack (ui_ (SwapModels s1)) = help_page
    /\ label_helptext (ui_ (SwapModels s1)) = error
    /\ error_ s2 = false
    /\ results_stack (ui_ s2) = help_page
    /\ label_helptext (ui_ s2) = error
    /\ results_stack (ui_ (SwapModels s2)) = results_page.
Proof.
  intros s id error text Htext s1 s2.
  assert (H1 : results_stack (ui_ s1) = help_page /\ label_helptext (ui_ s1) = error
               /\ error_ s1 = true) by (repeat split).
  destruct H1 as (Hst1 & Hl1 & He1).
  assert (Hl2 : label_helptext (ui_ s2) = label_helptext (ui_ s1)).
  { subst s2. unfold search_textChanged, TextEdited. simpl.
    unfold blank in Htext. now rewrite Htext. }
  destruct (search_textChanged_frame text s1)
    as (_ & _ & _ & _ & _ & Hst2 & Hq2 & He2 & _).
  fold s2 in Hst2, Hq2, He2.
  destruct (SwapModels_frame s1) as (_ & _ & _ & _ & _ & Hsw1).
  destruct (SwapModels_frame s2) as (_ & _ & _ & _ & _ & Hsw2).
  assert (Hlsw : label_helptext (ui_ (SwapModels s1)) = label_helptext (ui_ s1)).
  { unfold SwapModels; simpl. case_guards; reflexivity. }
  clearbody s1 s2.
  rewrite He1, orb_true_r in Hsw1. rewrite He2, Hq2, Htext in Hsw2. simpl in Hsw2.
  repeat split; congruence.
Qed.

Lemma error_lasts_until_the_next_query_witness :
  let s1 := SearchError 7 (qstr "timeout") (search_textChanged (qstr "jazz") example_view) in
  results_stack (ui_ (SwapModels s1)) = help_page
  /\ results_stack (ui_ (SwapModels (search_textChanged (qstr "jazz b") s1)))
     = results_page.
Proof.
  destruct (error_lasts_until_the_next_query
              (search_textChanged (qstr "jazz") example_view) 7
              (qstr "timeout") (qstr "jazz b") eq_refl)
    as (_ & _ & Hhelp & _ & _ & _ & _ & Hresults).
  split; [exact Hhelp | exact Hresults].
Defined.

(** *** Settings *)

Lemma save_grouping_lookup g q d :
  value_int (save_grouping g q) "group_by1" d = first g
  /\ value_int (save_grouping g q) "group_by2" d = second g
  /\ value_int (save_grouping g q) "group_by3" d = third g
  /\ value_int (save_grouping g q) "searchby" d = value_int q "searchby" d.
Proof. unfold save_grouping, value_int. repeat split; now simplify_map_eq. Qed.

Lemma stored_grouping_saved `{EnumValues} g q : stored_grouping (save_grouping g q) = g.
Proof.
  unfold stored_grouping.
  destruct (save_grouping_lookup g q GroupBy_Artist) as (-> & _).
  destruct (save_grouping_lookup g q GroupBy_Album) as (_ & -> & _).
  destruct (save_grouping_lookup g q GroupBy_None) as (_ & _ & -> & _).
  now destruct g.
Qed.

Lemma save_grouping_twice g q : save_grouping g (save_grouping g q) = save_grouping g q.
Proof.
  apply map_eq. intros k. unfold save_grouping.
  rewrite !lookup_insert. repeat case_decide; reflexivity.
Qed.

Lemma check_group_by_action_twice g grp :
  check_group_by_action g (check_group_by_action g grp) = check_group_by_action g grp.
Proof.
  unfold check_group_by_action.
  destruct (find_action g (actions grp) 0) eqn:Hfound; simpl; now rewrite Hfound.
Qed.

Lemma SetGroupBy_qsettings g s :
  qsettings (SetGroupBy g s) = save_grouping g (qsettings s)
  /\ searchby_ (SetGroupBy g s) = searchby_ s
  /\ error_ (SetGroupBy g s) = error_ s
  /\ current_proxy_ (SetGroupBy g s) = current_proxy_ s
  /\ group_by_actions_ (SetGroupBy g s)
     = check_group_by_action g (group_by_actions_ s).
Proof. repeat split. Qed.

(** [ReloadSettings] ends with [SetGroupBy] of the stored grouping; what
    runs before it changes the cover flag of the models, [searchby_] and the
    radio buttons only. *)
Lemma ReloadSettings_unfold `{EnumValues} s :
  exists s1,
    ReloadSettings s = SetGroupBy (stored_grouping (qsettings s)) s1
    /\ qsettings s1 = qsettings s
    /\ searchby_ s1 = value_int (qsettings s) "searchby" SearchBy_Songs
    /\ front_model_ s1 = front_model_ s /\ back_model_ s1 = back_model_ s
    /\ group_by_actions_ s1 = group_by_actions_ s
    /\ engine_ s1 = engine_ s
    /\ (forall p, TidalSearchModel.results (model_at (models s1) p)
                  = TidalSearchModel.results (model_at (models s) p)).
Proof.
  unfold ReloadSettings, stored_grouping.
  match goal with |- exists s1, SetGroupBy _ ?s' = _ /\ _ => exists s' end.
  split; [|simpl; case_guards; simpl; repeat split; intros p;
           destruct (front_model_ s), (back_model_ s), p; reflexivity].
  f_equal. simpl. case_guards; reflexivity.
Qed.

(** X5.  The grouping [SetGroupBy] saves is the grouping [ReloadSettings]
    reads back: reloading right after a regrouping leaves both models with
    that grouping and with their results, and leaves the stored settings
    and the checked action as they were. *)
Theorem saved_grouping_is_reloaded `{EnumValues} :
  forall (g : Grouping) (s : TidalSearchView),
    let s1 := SetGroupBy g s in
    let s2 := ReloadSettings s1 in
    TidalSearchModel.group_by_ (model_at (models s2) (front_model_ s2)) = g
    /\ TidalSearchModel.group_by_ (model_at (models s2) (back_model_ s2)) = g
    /\ (forall p, TidalSearchModel.results (model_at (models s2) p)
                  = TidalSearchModel.results (model_at (models s) p))
    /\ qsettings s2 = qsettings s1
    /\ group_by_actions_ s2 = group_by_actions_ s1.
Proof.
  intros g s s1 s2.
  destruct (SetGroupBy_qsettings g s) as (Hq1 & _ & _ & _ & Ha1).
  pose proof (SetGroupBy_models g s) as Hr1.
  fold s1 in Hq1, Ha1, Hr1.
  destruct (ReloadSettings_unfold s1) as (s1' & Hs2 & Hq & _ & Hf & Hb & Ha & _ & Hr).
  fold s2 in Hs2. rewrite Hq1, stored_grouping_saved in Hs2.
  clearbody s1 s2. subst s2.
  destruct (SetGroupBy_frame g s1') as (_ & _ & _ & _ & Hf2 & Hb2 & _).
  destruct (SetGroupBy_grouping g s1') as (Hgf & Hgb).
  destruct (SetGroupBy_qsettings g s1') as (Hq2 & _ & _ & _ & Ha2).
  rewrite Hf2, Hb2, Hq2, Ha2, Hq, Ha, Hq1, Ha1, save_grouping_twice.
  refine (conj Hgf (conj Hgb (conj _ (conj eq_refl _)))).
  - intros p. now rewrite SetGroupBy_models, Hr, Hr1.
  - apply check_group_by_action_twice.
Qed.

(** X7.  [SetSearchBy] stores the mode in the view and in the settings and
    submits the text of the search field again: the outstanding search is
    cancelled and, unless the text is blank, a search for the trimmed text
    is issued with the new mode.  A reload of the settings keeps the mode. *)
Theorem SetSearchBy_searches_again_with_the_new_mode `{EnumValues} :
  forall (searchby : SearchBy) (s : TidalSearchView),
    let s' := SetSearchBy searchby s in
    searchby_ s' = searchby
    /\ qsettings s' = <["searchby" := searchby]> (qsettings s)
    /\ TidalSearch.requests (engine_ s')
       = TidalSearch.requests (engine_ s)
         ++ TidalSearch.CancelSearchReq (last_search_id_ s)
            :: (if blank (search (ui_ s)) then []
                else [TidalSearch.SearchAsyncReq (TidalSearch.next_id_ (engine_ s))
                        (trimmed (search (ui_ s))) searchby])
    /\ searchby_ (ReloadSettings s') = searchby.
Proof.
  intros searchby s s'.
  assert (Hsb : searchby_ s' = searchby).
  { subst s'. unfold SetSearchBy, TextEdited; simpl. case_guards; reflexivity. }
  assert (Hq : qsettings s' = <["searchby" := searchby]> (qsettings s)).
  { subst s'. unfold SetSearchBy, TextEdited; simpl. case_guards; reflexivity. }
  assert (Hreq : TidalSearch.requests (engine_ s')
       = TidalSearch.requests (engine_ s)
         ++ TidalSearch.CancelSearchReq (last_search_id_ s)
            :: (if blank (search (ui_ s)) then []
                else [TidalSearch.SearchAsyncReq (TidalSearch.next_id_ (engine_ s))
                        (trimmed (search (ui_ s))) searchby])).
  { subst s'. unfold SetSearchBy. now rewrite TextEdited_engine. }
  clearbody s'. refine (conj Hsb (conj Hq (conj Hreq _))).
  destruct (ReloadSettings_unfold s') as (s1 & -> & _ & Hsb1 & _).
  destruct (SetGroupBy_qsettings (stored_grouping (qsettings s')) s1) as (_ & -> & _).
  rewrite Hsb1, Hq. unfold value_int. now rewrite lookup_insert_eq.
Qed.

Lemma view_eq (a b : TidalSearchView) :
  engine_ a = engine_ b -> qsettings a = qsettings b -> ui_ a = ui_ b ->
  models a = models b -> proxies a = proxies b ->
  last_search_id_ a = last_search_id_ b ->
  front_model_ a = front_model_ b -> back_model_ a = back_model_ b ->
  current_model_ a = current_model_ b ->
  front_proxy_ a = front_proxy_ b -> back_proxy_ a = back_proxy_ b ->
  current_proxy_ a = current_proxy_ b ->
  swap_models_timer_ a = swap_models_timer_ b ->
  art_requests_ a = art_requests_ b -> error_ a = error_ b ->
  searchby_ a = searchby_ b -> group_by_actions_ a = group_by_actions_ b ->
  a = b.
Proof. destruct a, b; simpl; intros; subst; reflexivity. Qed.

Lemma save_grouping_pretty g q d :
  value_bool (save_grouping g q) "pretty_covers" d = value_bool q "pretty_covers" d.
Proof. unfold save_grouping, value_bool. now simplify_map_eq. Qed.

(** Every member after [ReloadSettings], in terms of the members before. *)
Lemma ReloadSettings_members `{EnumValues} s :
  let pretty := value_bool (qsettings s) "pretty_covers" true in
  let searchby := value_int (qsettings s) "searchby" SearchBy_Songs in
  let g := stored_grouping (qsettings s) in
  let s' := ReloadSettings s in
  engine_ s' = engine_ s
  /\ qsettings s' = save_grouping g (qsettings s)
  /\ ui_ s' = (if searchby =? SearchBy_Songs
               then radiobutton_searchbysongs_setChecked (ui_ s)
               else if searchby =? SearchBy_Albums
               then radiobutton_searchbyalbums_setChecked (ui_ s)
               else ui_ s)
  /\ models s'
     = model_call (back_model_ s) (TidalSearchModel.SetGroupBy g false)
         (model_call (front_model_ s) (TidalSearchModel.SetGroupBy g true)
            (model_call (back_model_ s) (TidalSearchModel.set_use_pretty_covers pretty)
               (model_call (front_model_ s)
                  (TidalSearchModel.set_use_pretty_covers pretty) (models s))))
  /\ proxies s' = proxies s
  /\ last_search_id_ s' = last_search_id_ s
  /\ (front_model_ s' = front_model_ s /\ back_model_ s' = back_model_ s
      /\ current_model_ s' = current_model_ s)
  /\ (front_proxy_ s' = front_proxy_ s /\ back_proxy_ s' = back_proxy_ s
      /\ current_proxy_ s' = current_proxy_ s)
  /\ swap_models_timer_ s' = swap_models_timer_ s
  /\ art_requests_ s' = ∅
  /\ error_ s' = error_ s
  /\ searchby_ s' = searchby
  /\ group_by_actions_ s' = check_group_by_action g (group_by_actions_ s).
Proof.
  cbv zeta. unfold ReloadSettings, SetGroupBy, stored_grouping, save_grouping.
  cbn [engine_ qsettings ui_ models proxies last_search_id_ front_model_ back_model_
       current_model_ front_proxy_ back_proxy_ current_proxy_ swap_models_timer_
       art_requests_ error_ searchby_ group_by_actions_
       with_models with_searchby with_ui with_art_requests with_qsettings
       with_group_by_actions].
  case_guards;
    cbn [engine_ qsettings ui_ models proxies last_search_id_ front_model_ back_model_
         current_model_ front_proxy_ back_proxy_ current_proxy_ swap_models_timer_
         art_requests_ error_ searchby_ group_by_actions_
         with_models with_searchby with_ui with_art_requests with_qsettings
         with_group_by_actions];
    repeat split.
Qed.

(** X6.  Reloading the settings twice has the effect of reloading them
    once. *)
Theorem ReloadSettings_twice `{EnumValues} :
  forall s : TidalSearchView, ReloadSettings (ReloadSettings s) = ReloadSettings s.
Proof.
  intros s.
  pose proof (ReloadSettings_members s) as Hs. cbv zeta in Hs.
  destruct Hs as (He & Hq & Hu & Hm & Hp & Hid & (Hf & Hb & Hc) & (Hfp & Hbp & Hcp)
                  & Ht & Ha & Her & Hsb & Hg).
  pose proof (ReloadSettings_members (ReloadSettings s)) as Hs'. cbv zeta in Hs'.
  rewrite Hq, stored_grouping_saved, save_grouping_pretty, save_grouping_twice in Hs'.
  destruct (save_grouping_lookup (stored_grouping (qsettings s)) (qsettings s)
              SearchBy_Songs) as (_ & _ & _ & Hsearchby).
  rewrite Hsearchby in Hs'. clear Hsearchby.
  destruct Hs' as (He' & Hq' & Hu' & Hm' & Hp' & Hid' & (Hf' & Hb' & Hc')
                   & (Hfp' & Hbp' & Hcp') & Ht' & Ha' & Her' & Hsb' & Hg').
  set (s1 := ReloadSettings s) in *. clearbody s1.
  set (s2 := ReloadSettings s1) in *. clearbody s2.
  apply view_eq; try congruence.
  - rewrite Hu', Hu. destruct (ui_ s). case_guards; reflexivity.
  - rewrite Hm', Hf, Hb, Hm.
    destruct (front_model_ s), (back_model_ s), (models s) as [[] []]; reflexivity.
  - rewrite Hg', Hg. apply check_group_by_action_twice.
Qed.

Lemma Grouping_eqb_eq g h : Grouping_eqb g h = true <-> g = h.
Proof.
  unfold Grouping_eqb. destruct g, h; simpl.
  rewrite !andb_true_iff, !Z.eqb_eq. split.
  - intros [[-> ->] ->]. reflexivity.
  - intros [= -> -> ->]. auto.
Qed.

Lemma find_action_spec g (acts : list (option Grouping)) k :
  match find_action g acts k with
  | Some i =>
      (k <= i)%nat /\ acts !! (i - k)%nat = Some (Some g)
      /\ forall j, (j < i - k)%nat -> acts !! j <> Some (Some g)
  | None => forall j, acts !! j <> Some (Some g)
  end.
Proof.
  revert k. induction acts as [|[h|] acts IH]; intros k; simpl.
  - intros j. now rewrite lookup_nil.
  - destruct (Grouping_eqb g h) eqn:Heq.
    + apply Grouping_eqb_eq in Heq as ->.
      rewrite Nat.sub_diag. repeat split; [lia | intros j Hj; lia].
    + specialize (IH (S k)). destruct (find_action g acts (S k)) as [i|].
      * destruct IH as (Hk & Hi & Hbefore).
        replace (i - k)%nat with (S (i - S k)) by lia.
        repeat split; [lia | exact Hi |].
        intros [|j] Hj; simpl.
        -- intros [= ->]. rewrite (proj2 (Grouping_eqb_eq g g) eq_refl) in Heq.
           discriminate.
        -- apply Hbefore. lia.
      * intros [|j]; simpl; [|apply IH].
        intros [= ->]. rewrite (proj2 (Grouping_eqb_eq g g) eq_refl) in Heq.
        discriminate.
  - specialize (IH (S k)). destruct (find_action g acts (S k)) as [i|].
    + destruct IH as (Hk & Hi & Hbefore).
      replace (i - k)%nat with (S (i - S k)) by lia.
      repeat split; [lia | exact Hi |].
      intros [|j] Hj; simpl; [discriminate | apply Hbefore; lia].
    + intros [|j]; simpl; [discriminate | apply IH].
Qed.

(** X8.  [SetGroupBy] keeps the actions of the group and checks the first
    action whose "group_by" property equals the new grouping; when no action
    has that grouping it checks the last action of the group. *)
Theorem SetGroupBy_checks_the_first_matching_action :
  forall (g : Grouping) (s : TidalSearchView),
    let acts := actions (group_by_actions_ s) in
    let grp := group_by_actions_ (SetGroupBy g s) in
    actions grp = acts
    /\ ((exists i, checkedAction grp = Some i
                   /\ acts !! i = Some (Some g)
                   /\ forall j, (j < i)%nat -> acts !! j <> Some (Some g))
        \/ (checkedAction grp = Some (Nat.pred (length acts))
            /\ forall j, acts !! j <> Some (Some g))).
Proof.
  intros g s acts grp.
  assert (Hgrp : grp = check_group_by_action g (group_by_actions_ s)) by reflexivity.
  clearbody grp. subst grp. unfold check_group_by_action. fold acts.
  pose proof (find_action_spec g acts 0) as Hspec.
  destruct (find_action g acts 0) as [i|]; simpl.
  - split; [reflexivity|]. left. exists i.
    rewrite Nat.sub_0_r in Hspec. destruct Hspec as (_ & Hi & Hbefore). auto.
  - split; [reflexivity|]. right. auto.
Qed.

(** *** The searches the engine works on *)

Lemma outstanding_app reqs more :
  outstanding (reqs ++ more) = fold_left account more (outstanding reqs).
Proof. unfold outstanding. apply fold_left_app. Qed.

Lemma TextEdited_outstanding text s :
  outstanding (TidalSearch.requests (engine_ s)) = []
  \/ outstanding (TidalSearch.requests (engine_ s)) = [last_search_id_ s] ->
  outstanding (TidalSearch.requests (engine_ (TextEdited text s))) = []
  \/ outstanding (TidalSearch.requests (engine_ (TextEdited text s)))
     = [last_search_id_ (TextEdited text s)].
Proof.
  intros Hs. rewrite TextEdited_engine, TextEdited_id, outstanding_app.
  assert (Hcancelled :
    account (outstanding (TidalSearch.requests (engine_ s)))
      (TidalSearch.CancelSearchReq (last_search_id_ s)) = []).
  { destruct Hs as [-> | ->]; simpl; [reflexivity|]. now rewrite Z.eqb_refl. }
  cbn [fold_left]. rewrite Hcancelled. destruct (blank text); simpl; auto.
Qed.

(** Slots that leave the engine and the outstanding id alone. *)
Lemma outstanding_transfer s s' :
  engine_ s' = engine_ s -> last_search_id_ s' = last_search_id_ s ->
  outstanding (TidalSearch.requests (engine_ s)) = []
  \/ outstanding (TidalSearch.requests (engine_ s)) = [last_search_id_ s] ->
  outstanding (TidalSearch.requests (engine_ s')) = []
  \/ outstanding (TidalSearch.requests (engine_ s')) = [last_search_id_ s'].
Proof. now intros -> ->. Qed.

Lemma elapse_engine msec s : engine_ (elapse msec s) = engine_ s.
Proof.
  unfold elapse.
  destruct (remaining (swap_models_timer_ s)); [|reflexivity].
  case_guards; try reflexivity.
  now destruct (SwapModels_frame (with_timer (rearm (swap_models_timer_ s)) s))
    as (-> & _).
Qed.

Lemma deliver_outstanding `{EnumValues} s ev :
  outstanding (TidalSearch.requests (engine_ s)) = []
  \/ outstanding (TidalSearch.requests (engine_ s)) = [last_search_id_ s] ->
  outstanding (TidalSearch.requests (engine_ (deliver s ev))) = []
  \/ outstanding (TidalSearch.requests (engine_ (deliver s ev)))
     = [last_search_id_ (deliver s ev)].
Proof.
  intros Hs. destruct ev; cbn [deliver].
  - apply TextEdited_outstanding. revert Hs. now apply outstanding_transfer.
  - unfold StartSearch.
    match goal with |- context [SwapModels ?s'] =>
      destruct (SwapModels_frame s') as (-> & -> & _) end.
    cbn [engine_ last_search_id_ with_timer].
    apply TextEdited_outstanding.
    unfold search_setText. case_guards; [assumption|].
    apply TextEdited_outstanding. revert Hs. now apply outstanding_transfer.
  - revert Hs. apply outstanding_transfer;
      [apply elapse_engine | apply elapse_last_search_id].
  - revert Hs. destruct (AddResults_frame id rs s) as (He & _ & _ & Hid & _).
    now apply outstanding_transfer.
  - assumption.
  - assumption.
  - apply TextEdited_outstanding. revert Hs. now apply outstanding_transfer.
  - apply TextEdited_outstanding. revert Hs. now apply outstanding_transfer.
  - destruct (ReloadSettings_members (with_qsettings stored s))
      as (He & _ & _ & _ & _ & Hid & _).
    revert Hs. now apply outstanding_transfer.
Qed.

(** The state the constructor has built when it calls [ReloadSettings]. *)
Lemma TidalSearchView_new_unfold `{EnumValues} env :
  TidalSearchView_new env
  = ReloadSettings
      (mkView (tidal_search env) (stored_settings env)
         (setupUi (form_helptext env))
         (mkModels (TidalSearchModel.set_proxy proxy_1 new_TidalSearchModel)
                   (TidalSearchModel.set_proxy proxy_2 new_TidalSearchModel))
         (mkProxies (TidalSearchSortModel.mk (Some model_1) true (Some 0))
                    (TidalSearchSortModel.mk (Some model_2) true (Some 0)))
         0 model_1 model_2 model_1 proxy_1 proxy_2 proxy_1
         (mkTimer true kSwapModelsTimeoutMsec None) ∅ false SearchBy_Songs
         (mkActionGroup (CreateGroupByActions env) None)).
Proof. reflexivity. Qed.

(** The members of a freshly constructed view. *)
Lemma TidalSearchView_new_members `{EnumValues} env :
  let s := TidalSearchView_new env in
  let g := stored_grouping (stored_settings env) in
  engine_ s = tidal_search env
  /\ qsettings s = save_grouping g (stored_settings env)
  /\ ui_ s = (let u := setupUi (form_helptext env) in
              let searchby := value_int (stored_settings env) "searchby" SearchBy_Songs in
              if searchby =? SearchBy_Songs then radiobutton_searchbysongs_setChecked u
              else if searchby =? SearchBy_Albums then radiobutton_searchbyalbums_setChecked u
              else u)
  /\ last_search_id_ s = 0
  /\ (front_model_ s = model_1 /\ back_model_ s = model_2 /\ current_model_ s = model_1)
  /\ swap_models_timer_ s = mkTimer true kSwapModelsTimeoutMsec None
  /\ art_requests_ s = ∅
  /\ error_ s = false
  /\ searchby_ s = value_int (stored_settings env) "searchby" SearchBy_Songs
  /\ group_by_actions_ s
     = check_group_by_action g (mkActionGroup (CreateGroupByActions env) None)
  /\ (forall p, TidalSearchModel.results (model_at (models s) p) = []
                /\ TidalSearchModel.group_by_ (model_at (models s) p) = g).
Proof.
  cbv zeta. rewrite TidalSearchView_new_unfold.
  match goal with |- context [ReloadSettings ?s0] =>
    pose proof (ReloadSettings_members s0) as Hs0 end.
  cbv zeta in Hs0.
  destruct Hs0 as (He & Hq & Hu & Hm & _ & Hid & (Hf & Hb & Hc) & _
                   & Ht & Ha & Her & Hsb & Hg).
  refine (conj He (conj Hq (conj Hu (conj Hid (conj (conj Hf (conj Hb Hc))
            (conj Ht (conj Ha (conj Her (conj Hsb (conj Hg _)))))))))).
  intros p. rewrite Hm. destruct p; split; reflexivity.
Qed.

(** X9.  When no search is open at construction, then in every state the
    view can reach at most one search it has issued is not yet cancelled,
    and that search is the one whose id the view is waiting for. *)
Theorem at_most_one_search_outstanding `{EnumValues} :
  forall (env : Environment) (evs : list Event),
    outstanding (TidalSearch.requests (tidal_search env)) = [] ->
    let s := run evs (TidalSearchView_new env) in
    outstanding (TidalSearch.requests (engine_ s)) = []
    \/ outstanding (TidalSearch.requests (engine_ s)) = [last_search_id_ s].
Proof.
  intros env evs Henv s. subst s.
  assert (Hnew : outstanding (TidalSearch.requests (engine_ (TidalSearchView_new env))) = []
                 \/ outstanding (TidalSearch.requests (engine_ (TidalSearchView_new env)))
                    = [last_search_id_ (TidalSearchView_new env)]).
  { left. destruct (TidalSearchView_new_members env) as (-> & _). exact Henv. }
  revert Hnew. generalize (TidalSearchView_new env).
  induction evs as [|ev evs IH]; intros s Hs; [exact Hs|].
  apply IH. now apply deliver_outstanding.
Qed.

Lemma at_most_one_search_outstanding_witness :
  let s := @run example_enums
             [SearchTextChanged (qstr "j"); SearchTextChanged (qstr "ja");
              DoStartSearch (qstr "jazz"); AlbumsClicked]
             (@TidalSearchView_new example_enums example_env) in
  last_search_id_ s = 5
  /\ (outstanding (TidalSearch.requests (engine_ s)) = []
      \/ outstanding (TidalSearch.requests (engine_ s)) = [last_search_id_ s]).
Proof.
  split; [vm_compute; reflexivity|].
  exact (@at_most_one_search_outstanding example_enums example_env
           [SearchTextChanged (qstr "j"); SearchTextChanged (qstr "ja");
            DoStartSearch (qstr "jazz"); AlbumsClicked] eq_refl).
Defined.

(** *** Construction *)

(** X10.  A freshly constructed view shows the help page with an empty
    search field and no model in the results list; the timer is not running,
    nothing has been sent to the engine, no artwork request is pending, both
    models are empty and grouped by the stored grouping, and the search mode
    is the stored one.  Keys missing from the settings stand for grouping by
    artist and album and for searching songs. *)
Theorem constructed_view_is_idle `{EnumValues} :
  forall env : Environment,
    let s := TidalSearchView_new env in
    results_stack (ui_ s) = help_page
    /\ search (ui_ s) = []
    /\ visible_results s = None
    /\ isActive (swap_models_timer_ s) = false
    /\ engine_ s = tidal_search env
    /\ last_search_id_ s = 0
    /\ art_requests_ s = ∅
    /\ (forall p,
          TidalSearchModel.results (model_at (models s) p) = []
          /\ TidalSearchModel.group_by_ (model_at (models s) p)
             = stored_grouping (stored_settings env))
    /\ searchby_ s = value_int (stored_settings env) "searchby" SearchBy_Songs
    /\ stored_grouping ∅ = mkGrouping GroupBy_Artist GroupBy_Album GroupBy_None
    /\ value_int ∅ "searchby" SearchBy_Songs = SearchBy_Songs.
Proof.
  intros env s.
  pose proof (TidalSearchView_new_members env) as Hs. cbv zeta in Hs. fold s in Hs.
  destruct Hs as (He & _ & Hu & Hid & _ & Ht & Ha & _ & Hsb & _ & Hm).
  clearbody s.
  assert (Hui : results_stack (ui_ s) = help_page /\ search (ui_ s) = []
                /\ results (ui_ s) = None).
  { rewrite Hu. case_guards; repeat split. }
  destruct Hui as (Hst & Hq & Hres).
  refine (conj Hst (conj Hq (conj _ (conj _ (conj He (conj Hid (conj Ha
            (conj Hm (conj Hsb (conj eq_refl eq_refl)))))))))).
  - unfold visible_results. now rewrite Hres.
  - now rewrite Ht.
Qed.

(** *** Artwork *)

(** X11.  [ArtLoaded] uses up the request it answers and changes nothing but
    the request map: the id is gone from the map afterwards, the other
    requests stay, and a second answer with the same id does nothing.  An
    answer whose id is not in the map does nothing at all. *)
Theorem ArtLoaded_answers_a_request_once :
  forall (s : TidalSearchView) (id : Z) (pixmap : QPixmap),
    let s' := fst (ArtLoaded id pixmap s) in
    art_requests_ s' = delete id (art_requests_ s)
    /\ with_art_requests (art_requests_ s) s' = s
    /\ (forall again, ArtLoaded id again s' = (s', []))
    /\ (art_requests_ s !! id = None -> ArtLoaded id pixmap s = (s, [])).
Proof.
  intros s id pixmap s'. subst s'. unfold ArtLoaded.
  destruct (art_requests_ s !! id) as [index|] eqn:Hid.
  - assert (Hfst : forall (b : bool) (x : TidalSearchView) (e : list Effect),
              fst (if b then (x, e) else (x, [])) = x) by (now intros []).
    rewrite Hfst. cbn [art_requests_ with_art_requests].
    rewrite lookup_delete_eq.
    repeat split; try discriminate. now destruct s.
  - cbn [fst]. rewrite Hid.
    repeat split; [symmetry; now apply delete_id | now destruct s].
Qed.

Lemma ArtLoaded_answers_a_request_once_witness :
  let s := with_art_requests ∅ example_view in
  ArtLoaded 7 (Pixmap [1; 2; 3]) s = (s, []).
Proof.
  destruct (ArtLoaded_answers_a_request_once (with_art_requests ∅ example_view) 7
              (Pixmap [1; 2; 3])) as (_ & _ & _ & Hunknown).
  apply Hunknown. vm_compute. reflexivity.
Defined.

Lemma ArtLoaded_without_requests id pixmap s :
  art_requests_ s = ∅ -> ArtLoaded id pixmap s = (s, []).
Proof. intros Hempty. unfold ArtLoaded. now rewrite Hempty, lookup_empty. Qed.

(** X12.  Artwork that arrives after a swap, an immediate search, a
    regrouping or a reload of the settings is dropped, whatever requests
    were pending before: no item is decorated and the view stays as it is. *)
Theorem art_for_an_earlier_layout_is_dropped `{EnumValues} :
  forall (s : TidalSearchView) (id : Z) (pixmap : QPixmap) (g : Grouping)
         (query : QString),
    ArtLoaded id pixmap (SwapModels s) = (SwapModels s, [])
    /\ ArtLoaded id pixmap (StartSearch query s) = (StartSearch query s, [])
    /\ ArtLoaded id pixmap (SetGroupBy g s) = (SetGroupBy g s, [])
    /\ ArtLoaded id pixmap (ReloadSettings s) = (ReloadSettings s, []).
Proof.
  intros s id pixmap g query.
  refine (conj _ (conj _ (conj _ _))); apply ArtLoaded_without_requests.
  - now destruct (SwapModels_frame s) as (_ & _ & _ & _ & -> & _).
  - unfold StartSearch.
    match goal with |- art_requests_ (SwapModels ?s') = _ =>
      now destruct (SwapModels_frame s') as (_ & _ & _ & _ & -> & _) end.
  - reflexivity.
  - now destruct (ReloadSettings_members s)
      as (_ & _ & _ & _ & _ & _ & _ & _ & _ & -> & _).
Qed.

Lemma TextEdited_art_requests text s :
  art_requests_ (TextEdited text s) = art_requests_ s.
Proof. unfold TextEdited; simpl; case_guards; reflexivity. Qed.

(** A slot either empties the request map or leaves it and the front model
    pointer alone. *)
Lemma deliver_art_requests `{EnumValues} s ev :
  art_requests_ (deliver s ev) = ∅
  \/ (art_requests_ (deliver s ev) = art_requests_ s
      /\ front_model_ (deliver s ev) = front_model_ s).
Proof.
  destruct ev; cbn [deliver].
  - right. unfold search_textChanged. rewrite TextEdited_art_requests.
    now destruct (TextEdited_pointers text (with_ui (search_set text (ui_ s)) s))
      as (-> & _).
  - left. unfold StartSearch.
    match goal with |- art_requests_ (SwapModels ?s') = _ =>
      now destruct (SwapModels_frame s') as (_ & _ & _ & _ & -> & _) end.
  - unfold elapse. destruct (remaining (swap_models_timer_ s)); [|now right].
    case_guards; [now right | now right | left].
    match goal with |- art_requests_ (SwapModels ?s') = _ =>
      now destruct (SwapModels_frame s') as (_ & _ & _ & _ & -> & _) end.
  - right. unfold AddResults. case_guards; split; reflexivity.
  - now right.
  - now left.
  - right. unfold SearchBySongsClicked, SetSearchBy. rewrite TextEdited_art_requests.
    match goal with |- _ /\ front_model_ (TextEdited ?t ?s') = _ =>
      now destruct (TextEdited_pointers t s') as (-> & _) end.
  - right. unfold SearchByAlbumsClicked, SetSearchBy. rewrite TextEdited_art_requests.
    match goal with |- _ /\ front_model_ (TextEdited ?t ?s') = _ =>
      now destruct (TextEdited_pointers t s') as (-> & _) end.
  - left. now destruct (ReloadSettings_members (with_qsettings stored s))
      as (_ & _ & _ & _ & _ & _ & _ & _ & _ & -> & _).
Qed.

Lemma deliver_view_keeps `{EnumValues} `{AlbumEnumValues} s ev :
  view_inv s -> art_requests_in_front s ->
  exists s' effects,
    deliver_view s ev = Some (s', effects)
    /\ view_inv s' /\ art_requests_in_front s' /\ Forall well_aimed effects.
Proof.
  intros Hinv Hart. destruct ev as [ev | pretty art_id index | id pixmap];
    cbn [deliver_view].
  - exists (deliver s ev), []. split; [reflexivity|].
    split; [now apply deliver_inv|]. split; [|constructor].
    destruct (deliver_art_requests s ev) as [Hempty | [Hsame Hfront]];
      intros id index; rewrite ?Hempty, ?Hsame, ?Hfront.
    + now rewrite lookup_empty.
    + apply Hart.
  - unfold LazyLoadArt, mapToSource.
    destruct Hinv as ((Hsource & Hrest) & Hcfg & Hshown).
    rewrite Hsource. cbn [mbind option_bind].
    case_guards;
      try (exists s, []; split; [reflexivity|];
           split; [exact (conj (conj Hsource Hrest) (conj Hcfg Hshown))|];
           split; [exact Hart | constructor]).
    eexists _, _. split; [reflexivity|].
    split; [exact (conj (conj Hsource Hrest) (conj Hcfg Hshown))|]. split.
    + intros id idx. cbn [art_requests_ with_art_requests front_model_].
      rewrite lookup_insert. case_decide.
      * now intros [= <-].
      * apply Hart.
    + repeat constructor.
  - unfold ArtLoaded.
    destruct (art_requests_ s !! id) as [index|] eqn:Hid.
    + assert (Hkept : art_requests_in_front
                        (with_art_requests (delete id (art_requests_ s)) s)).
      { intros id' idx. cbn [art_requests_ with_art_requests front_model_].
        rewrite lookup_delete. case_decide; [discriminate | apply Hart]. }
      destruct (negb (isNull pixmap)); eexists _, _;
        (split; [reflexivity|]); (split; [exact Hinv|]);
        (split; [exact Hkept|]); repeat constructor.
      exact (Hart id index Hid).
    + exists s, []. split; [reflexivity|]. split; [exact Hinv|].
      split; [exact Hart | constructor].
Qed.

(** X13.  From construction on, whatever events arrive, the artwork events
    included: no slot dereferences a null pointer, every pending artwork
    request refers to an item of the model that is at the front, and every
    item that is marked as loading or given its artwork belongs to the
    model it is looked up in. *)
Theorem artwork_stays_with_the_front_model `{EnumValues} `{AlbumEnumValues} :
  forall (env : Environment) (evs : list ViewEvent),
  exists s effects,
    run_view evs (TidalSearchView_new env) = Some (s, effects)
    /\ art_requests_in_front s
    /\ Forall well_aimed effects.
Proof.
  intros env evs.
  assert (Hnew : view_inv (TidalSearchView_new env)
                 /\ art_requests_in_front (TidalSearchView_new env)).
  { split; [apply TidalSearchView_new_inv|].
    destruct (TidalSearchView_new_members env) as (_ & _ & _ & _ & _ & _ & Ha & _).
    intros id index. rewrite Ha. now rewrite lookup_empty. }
  revert Hnew. generalize (TidalSearchView_new env).
  induction evs as [|ev evs IH]; intros s [Hinv Hart].
  - exists s, []. repeat split; [assumption | constructor].
  - destruct (deliver_view_keeps s ev Hinv Hart) as (s1 & eff & Hstep & Hinv1 & Hart1 & Heff).
    destruct (IH s1 (conj Hinv1 Hart1)) as (s2 & more & Hrun & Hart2 & Hmore).
    exists s2, (eff ++ more). cbn [run_view]. rewrite Hstep, Hrun.
    repeat split; [assumption | now apply Forall_app].
Qed.

(** A run in which artwork is requested, delivered, and requested again
    after a swap. *)
Example artwork_example :
  let album := mkProxyIndex true proxy_1 0 example_album in
  @run_view example_enums example_albums
    [PaintItem true 11 album;
     EngineArtLoaded 11 (Pixmap [255]);
     ViewEv (DoStartSearch (qstr "blue"));
     PaintItem true 12 album;
     EngineArtLoaded 11 (Pixmap [0])]
    example_view
  = Some (StartSearch (qstr "blue") example_view,
          [MarkLazyLoadingArt model_1 (mkIndex model_1 0);
           LoadArtAsync (qstr "So What");
           SetDecoration model_1 (mkIndex model_1 0) (Pixmap [255])]).
Proof. vm_compute. reflexivity. Qed.

(** *** Adding the selection to a playlist *)

Lemma find_first_non_divider dividers row rest :
  forallb is_divider dividers = true -> is_divider row = false ->
  List.find (fun index => negb (is_divider index)) (dividers ++ row :: rest) = Some row.
Proof.
  intros Hdiv Hrow. induction dividers as [|d dividers IH]; simpl in *.
  - now rewrite Hrow.
  - apply andb_prop in Hdiv as [-> Hdiv]. simpl. now apply IH.
Qed.

Lemma find_only_dividers rows :
  forallb is_divider rows = true ->
  List.find (fun index => negb (is_divider index)) rows = None.
Proof.
  induction rows as [|d rows IH]; simpl; [reflexivity|].
  intros Hdiv. apply andb_prop in Hdiv as [-> Hdiv]. simpl. now apply IH.
Qed.

(** X14.  [SelectedMimeData] returns nothing while no model is installed in
    the results list.  With a model installed, selected rows are loaded as
    they are; with nothing selected, the first row of the front proxy that
    is not a divider is made current and loaded, and when every row is a
    divider nothing is loaded and no row is made current. *)
Theorem SelectedMimeData_takes_the_first_row_that_is_no_divider `{TrackLoader} :
  forall (s : TidalSearchView) (proxy : ProxyPtr)
         (selected dividers rest : list ProxyIndex) (row : ProxyIndex),
    results (ui_ s) = Some proxy ->
    forallb is_divider dividers = true ->
    is_divider row = false ->
    SelectedMimeData [] (dividers ++ row :: rest) s
      = (LoadTracks (GetChildResults [index_item row]), [SetCurrentIndex row])
    /\ SelectedMimeData [] dividers s = (None, [])
    /\ SelectedMimeData (row :: selected) (dividers ++ rest) s
       = (LoadTracks (GetChildResults (map index_item (row :: selected))), [])
    /\ SelectedMimeData (row :: selected) (dividers ++ rest)
         (with_ui (mkUi (search (ui_ s)) (label_helptext (ui_ s))
                        (results_stack (ui_ s)) None
                        (radiobutton_searchbysongs (ui_ s))
                        (radiobutton_searchbyalbums (ui_ s))) s)
       = (None, []).
Proof.
  intros s proxy selected dividers rest row Hmodel Hdiv Hrow.
  unfold SelectedMimeData. rewrite Hmodel.
  rewrite (find_first_non_divider dividers row rest Hdiv Hrow).
  rewrite (find_only_dividers dividers Hdiv).
  repeat split.
Qed.

Lemma SelectedMimeData_takes_the_first_row_that_is_no_divider_witness :
  let s := StartSearch (qstr "blue") example_view in
  let divider := mkProxyIndex true proxy_2 0 example_divider in
  let album := mkProxyIndex true proxy_2 1 example_album in
  @SelectedMimeData example_loader [] [divider; album] s
  = (Some (mkMimeData [qstr "So What"] false false false), [SetCurrentIndex album]).
Proof.
  exact (proj1 (@SelectedMimeData_takes_the_first_row_that_is_no_divider
                  example_loader (StartSearch (qstr "blue") example_view) proxy_2 []
                  [mkProxyIndex true proxy_2 0 example_divider] []
                  (mkProxyIndex true proxy_2 1 example_album)
                  eq_refl eq_refl eq_refl)).
Defined.

Lemma SelectedMimeData_effects `{TrackLoader} selected rows s data :
  ~ In (AddToPlaylist data) (snd (SelectedMimeData selected rows s)).
Proof.
  unfold SelectedMimeData.
  destruct (results (ui_ s)); [|simpl; tauto].
  destruct selected as [|row selected]; [|simpl; tauto].
  destruct (List.find _ rows); simpl; [|tauto].
  intros [Heq | []]. discriminate.
Qed.

(** X15.  [LoadSelected], [AddSelectedToPlaylistEnqueue] and
    [OpenSelectedInNewPlaylist] never emit [AddToPlaylist] without data, and
    the data they emit has their flag set.  [AddSelectedToPlaylist] always
    emits the signal once, as the last thing it does, with whatever
    [SelectedMimeData] returned; while no model is installed that is a null
    pointer. *)
Theorem playlist_slots_emit_their_flag `{TrackLoader} :
  forall (selected rows : list ProxyIndex) (s : TidalSearchView),
    (forall data, In (AddToPlaylist data) (LoadSelected selected rows s) ->
                  exists d, data = Some d /\ clear_first_ d = true)
    /\ (forall data, In (AddToPlaylist data) (AddSelectedToPlaylistEnqueue selected rows s) ->
                     exists d, data = Some d /\ enqueue_now_ d = true)
    /\ (forall data, In (AddToPlaylist data) (OpenSelectedInNewPlaylist selected rows s) ->
                     exists d, data = Some d /\ open_in_new_playlist_ d = true)
    /\ AddSelectedToPlaylist selected rows s
       = snd (SelectedMimeData selected rows s)
         ++ [AddToPlaylist (fst (SelectedMimeData selected rows s))]
    /\ (results (ui_ s) = None ->
        AddSelectedToPlaylist selected rows s = [AddToPlaylist None]).
Proof.
  intros selected rows s.
  assert (Hquiet := fun data => SelectedMimeData_effects selected rows s data).
  unfold LoadSelected, AddSelectedToPlaylistEnqueue, OpenSelectedInNewPlaylist,
    AddSelectedToPlaylist.
  assert (Hnone : results (ui_ s) = None -> SelectedMimeData selected rows s = (None, [])).
  { intros Hnone. unfold SelectedMimeData. now rewrite Hnone. }
  destruct (SelectedMimeData selected rows s) as [[d|] effects]; simpl in *.
  - repeat split; try (intros Hx; specialize (Hnone Hx); discriminate);
      intros data Hin; apply in_app_or in Hin as [Hin | [Hin | []]];
      try (now apply Hquiet in Hin); injection Hin as <-; eexists; split; reflexivity.
  - repeat split; try (intros data Hin; now apply Hquiet in Hin).
    intros Hx. specialize (Hnone Hx). now injection Hnone as ->.
Qed.

Lemma playlist_slots_emit_their_flag_witness :
  let album := mkProxyIndex true proxy_2 1 example_album in
  @AddSelectedToPlaylist example_loader [album] [] example_view = [AddToPlaylist None].
Proof.
  exact (proj2 (proj2 (proj2 (proj2
           (@playlist_slots_emit_their_flag example_loader
              [mkProxyIndex true proxy_2 1 example_album] [] example_view))))
         ltac:(vm_compute; reflexivity)).
Defined.

(** *** Keys in the search field *)

(** X16.  Escape is handled by clearing the search field.  On an empty field
    that changes nothing; otherwise, in every state the view can reach, it
    acts as the submission of an empty text: the outstanding search is
    cancelled, -1 becomes the outstanding id, no search is issued, and once
    the timer has run the help page is shown.  A key other than Up, Down,
    Escape and Return is not handled and changes nothing. *)
Theorem Escape_clears_the_search `{EnumValues} `{TrackLoader} :
  forall (env : Environment) (evs : list Event) (selected rows : list ProxyIndex)
         (code : Z),
    let s := run evs (TidalSearchView_new env) in
    let s' := snd (fst (SearchKeyEvent Key_Escape selected rows s)) in
    fst (fst (SearchKeyEvent Key_Escape selected rows s)) = true
    /\ search (ui_ s') = []
    /\ (search (ui_ s) = [] -> s' = s)
    /\ (search (ui_ s) <> [] ->
        last_search_id_ s' = -1
        /\ TidalSearch.requests (engine_ s')
           = TidalSearch.requests (engine_ s)
             ++ [TidalSearch.CancelSearchReq (last_search_id_ s)]
        /\ results_stack (ui_ (elapse kSwapModelsTimeoutMsec s')) = help_page)
    /\ SearchKeyEvent (Key_other code) selected rows s = (false, s, []).
Proof.
  intros env evs selected rows code s s'.
  pose proof (reachable_inv env evs) as Hinv. fold s in Hinv. clearbody s.
  subst s'. cbn [SearchKeyEvent fst snd].
  split; [reflexivity|].
  unfold search_setText. case_bool_decide as Hempty.
  - refine (conj _ (conj (fun _ => eq_refl) (conj _ eq_refl))); congruence.
  - destruct (search_textChanged_frame [] s)
      as (_ & _ & _ & _ & _ & _ & Hq & Herr & _).
    destruct (search_textChanged_arms [] s Hinv) as (Hshot & Hrem).
    assert (Hid : last_search_id_ (search_textChanged [] s) = -1).
    { unfold search_textChanged. now rewrite TextEdited_id. }
    assert (Hreq : TidalSearch.requests (engine_ (search_textChanged [] s))
                   = TidalSearch.requests (engine_ s)
                     ++ [TidalSearch.CancelSearchReq (last_search_id_ s)]).
    { unfold search_textChanged. now rewrite TextEdited_engine. }
    set (s1 := search_textChanged [] s) in *. clearbody s1.
    refine (conj Hq (conj _ (conj _ eq_refl))); [congruence|].
    intros _. refine (conj Hid (conj Hreq _)).
    rewrite (elapse_fires _ kSwapModelsTimeoutMsec s1 Hshot Hrem)
      by (unfold kSwapModelsTimeoutMsec; lia).
    match goal with |- context [SwapModels ?s2] =>
      destruct (SwapModels_frame s2) as (_ & _ & _ & _ & _ & ->) end.
    cbn [ui_ with_timer error_]. now rewrite Hq.
Qed.

Lemma Escape_clears_the_search_witness :
  let s := @run example_enums [SearchTextChanged (qstr "jazz"); TimePasses 300]
             (@TidalSearchView_new example_enums example_env) in
  let s' := snd (fst (@SearchKeyEvent example_loader Key_Escape [] [] s)) in
  results_stack (ui_ s) = results_page
  /\ last_search_id_ s' = -1
  /\ results_stack (ui_ (elapse kSwapModelsTimeoutMsec s')) = help_page.
Proof.
  destruct (@Escape_clears_the_search example_enums example_loader example_env
              [SearchTextChanged (qstr "jazz"); TimePasses 300] [] [] 0)
    as (_ & _ & _ & Hcleared & _).
  destruct (Hcleared ltac:(vm_compute; discriminate)) as (Hid & _ & Hhelp).
  split; [vm_compute; reflexivity | split; [exact Hid | exact Hhelp]].
Defined.

(** X17.  [SearchForThis] needs a model in the results list and a selected
    row; it then searches for the text of the first selected row at once:
    the text is in the search field, the models are swapped, the timer is
    stopped and the results page is up, or the help page for a blank
    text. *)
Theorem SearchForThis_searches_for_the_selected_row :
  forall (s : TidalSearchView) (proxy : ProxyPtr) (row : ProxyIndex)
         (selected : list ProxyIndex),
    results (ui_ s) = Some proxy ->
    let text := DisplayRole (item_data (index_item row)) in
    SearchForThis [] s = None
    /\ exists s',
        SearchForThis (row :: selected) s = Some s'
        /\ search (ui_ s') = text
        /\ front_model_ s' = back_model_ s
        /\ isActive (swap_models_timer_ s') = false
        /\ results_stack (ui_ s') = (if blank text then help_page else results_page).
Proof.
  intros s proxy row selected Hmodel text.
  unfold SearchForThis. rewrite Hmodel. split; [reflexivity|].
  exists (StartSearch text s). split; [reflexivity|].
  unfold StartSearch.
  destruct (search_setText_frame text s) as (Hq & _ & Hb & _).
  set (s1 := search_setText text s) in *.
  destruct (TextEdited_pointers text s1) as (_ & Hb2 & _).
  destruct (TextEdited_frame text s1) as (_ & _ & Hq2 & _ & Herr & _).
  set (s2 := TextEdited text s1) in *.
  set (s3 := with_timer (stop (swap_models_timer_ s2)) s2).
  destruct (SwapModels_pointers s3) as (_ & _ & Hf3 & _).
  destruct (SwapModels_frame s3) as (_ & _ & _ & Ht & _ & Hstack).
  assert (Hq3 : search (ui_ (SwapModels s3)) = search (ui_ s3)).
  { unfold SwapModels; simpl. case_guards; reflexivity. }
  clearbody s2 s1. simpl in *.
  refine (conj _ (conj _ (conj _ _))); try congruence.
  - unfold isActive. now rewrite Ht.
  - rewrite Hstack, Herr, Hq2, Hq, orb_false_r. reflexivity.
Qed.

Lemma SearchForThis_searches_for_the_selected_row_witness :
  let s := StartSearch (qstr "blue") example_view in
  let album := mkProxyIndex true proxy_2 1 example_album in
  exists s', SearchForThis [album] s = Some s'
             /\ search (ui_ s') = qstr "Kind of Blue"
             /\ results_stack (ui_ s') = results_page.
Proof.
  destruct (SearchForThis_searches_for_the_selected_row
              (StartSearch (qstr "blue") example_view) proxy_2
              (mkProxyIndex true proxy_2 1 example_album) [] eq_refl)
    as (_ & s' & Hsome & Htext & _ & _ & Hpage).
  exists s'. split; [exact Hsome | split; [exact Htext | exact Hpage]].
Defined.
